(** * ai-dungeon-master: the turn-update protocol of the game view

    A shallow embedding of [frontend/app/page.tsx] (the [Home] component),
    of [lib/gameClient.ts] and of [lib/types.ts].

    Conventions of the embedding.
    - A JavaScript [number] that the program only uses as an integer ([hp],
      [hp_delta], [turn_count]) is a [Z]; the embedding is exact on the safe
      integers, which is where a session lives.
    - A JavaScript string is a [string]; [Array] of strings is [list string].
    - A value of a TypeScript interface is a record with the fields of the
      interface: responses are taken well typed, as [lib/types.ts] declares.
    - React state is a record with one field per [useState] hook; a handler is
      a command that transforms the store and logs the requests it sends.
    - An [async] function is cut at its [await]s: the part before the [await]
      is one command, and the suspended rest is kept as a [Pending] entry that
      a later event resumes with the outcome of the awaited request. *)

From Stdlib Require Import ZArith List String Bool Lia.
Import ListNotations.

Local Open Scope Z_scope.
Local Open Scope string_scope.

(** ** lib/types.ts *)

Module StateUpdates.
Record t : Type := mk {
  hp_delta : Z;
  inventory_add : list string;
  inventory_remove : list string;
  location : string;
  last_scene : string
}.
End StateUpdates.

Module DMResponse.
Record t : Type := mk {
  dm_narration : string;
  scene_summary : string;
  suggested_actions : string * string * string;
  state_updates : StateUpdates.t;
  game_over : bool
}.
End DMResponse.

Module GameState.
Record t : Type := mk {
  campaign_seed : string;
  player_name : string;
  player_class : string;
  inventory : list string;
  hp : Z;
  location : string;
  last_scene : string;
  turn_count : Z
}.
End GameState.

Module DMRequest.
Record t : Type := mk {
  state : GameState.t;
  player_action : option string
}.
End DMRequest.

Module VoiceRequest.
Record t : Type := mk { text : string }.
End VoiceRequest.

Module VoiceResponse.
Record t : Type := mk {
  audio_base64 : string;
  content_type : string
}.
End VoiceResponse.

(** ** The JavaScript operators the component relies on *)

Module Js.

(** Truthiness of a string: only the empty string is falsy. *)
Definition truthy (s : string) : bool :=
  match s with
  | EmptyString => false
  | String _ _ => true
  end.

(** [a || b] on strings. *)
Definition logical_or (a b : string) : string :=
  if truthy a then a else b.

(** [xs.includes(x)] on an array of strings. *)
Fixpoint includes (xs : list string) (x : string) : bool :=
  match xs with
  | [] => false
  | y :: ys => if String.eqb y x then true else includes ys x
  end.

(** [Math.max(a, b)] on integers. *)
Definition Math_max (a b : Z) : Z := Z.max a b.

(** What a [throw] can carry, as far as the program's [catch] clauses can
    tell apart: [axios.isAxiosError(e)], [e instanceof Error], or neither. *)
Inductive Thrown : Type :=
| AxiosError (message : string)
| Error (message : string)
| NonError.

(** How an awaited promise settles. *)
Inductive Outcome (A : Type) : Type :=
| Resolved (a : A)
| Rejected (e : Thrown).

Arguments Resolved {A} a.
Arguments Rejected {A} e.

End Js.

Import Js.

(** ** page.tsx, lines 48-60: the state after a DM response *)

Definition updatedState (state : GameState.t) (response : DMResponse.t)
  : GameState.t :=
  let u := DMResponse.state_updates response in
  {| GameState.campaign_seed := GameState.campaign_seed state;
     GameState.player_name := GameState.player_name state;
     GameState.player_class := GameState.player_class state;
     GameState.inventory :=
       filter (fun item => negb (includes (StateUpdates.inventory_remove u) item))
              (GameState.inventory state)
       ++ StateUpdates.inventory_add u;
     GameState.hp :=
       Math_max 0 (GameState.hp state + StateUpdates.hp_delta u);
     GameState.location :=
       logical_or (StateUpdates.location u) (GameState.location state);
     GameState.last_scene :=
       logical_or (StateUpdates.last_scene u) (GameState.last_scene state);
     GameState.turn_count := GameState.turn_count state + 1 |}.

(** ** The specification's words for the same update *)

(** [clamp x lo hi]: [x] brought back into the interval from [lo] to [hi]. *)
Definition clamp (x lo hi : Z) : Z := Z.max lo (Z.min x hi).

(** Removal of the held items that are named, then addition of the new
    items: survivors first, additions after. *)
Definition remove_then_add (held remove add : list string) : list string :=
  filter (fun item => if in_dec string_dec item remove then false else true) held
  ++ add.

(** ** lib/gameClient.ts *)

Module gameClient.

(** The requests that leave the client: [client.post(url, body)]. *)
Inductive Request : Type :=
| PostDM (body : DMRequest.t)
| PostVoice (body : VoiceRequest.t).

(** [getDMResponse], up to its [await]: the request it posts. *)
Definition getDMResponse_request (state : GameState.t)
           (playerAction : option string) : Request :=
  PostDM {| DMRequest.state := state;
            DMRequest.player_action := playerAction |}.

(** [getDMResponse], after its [await]: the data of a response is
    returned, an axios error is wrapped into a fresh [Error], anything
    else is thrown again as it is. *)
Definition getDMResponse (posted : Outcome DMResponse.t)
  : Outcome DMResponse.t :=
  match posted with
  | Resolved data => Resolved data
  | Rejected (AxiosError message) =>
      Rejected (Error ("Failed to get DM response: " ++ message))
  | Rejected error => Rejected error
  end.

Definition getVoiceNarration_request (text : string) : Request :=
  PostVoice {| VoiceRequest.text := text |}.

Definition getVoiceNarration (posted : Outcome VoiceResponse.t)
  : Outcome VoiceResponse.t :=
  match posted with
  | Resolved data => Resolved data
  | Rejected (AxiosError message) =>
      Rejected (Error ("Failed to get voice narration: " ++ message))
  | Rejected error => Rejected error
  end.

(** [getGameStart], after its [await]; the data of the response is not
    typed by the client. *)
Definition getGameStart {A : Type} (got : Outcome A) : Outcome A :=
  match got with
  | Resolved data => Resolved data
  | Rejected (AxiosError message) =>
      Rejected (Error ("Failed to get game start: " ++ message))
  | Rejected error => Rejected error
  end.

End gameClient.

(** [err instanceof Error ? err.message : fallback] *)
Definition message_of (err : Thrown) (fallback : string) : string :=
  match err with
  | AxiosError message => message
  | Error message => message
  | NonError => fallback
  end.

(** ** page.tsx: the store of the [Home] component *)

(** The [<audio>] element behind [audioRef], as far as the component
    drives it. *)
Record Audio : Type := mkAudio {
  src : string;
  onended : bool;    (* the handler of line 85 is installed *)
  playing : bool
}.

(** The rest of an [async] call that is suspended at an [await]. *)
Inductive Pending : Type :=
| AwaitDM (state : GameState.t)   (* [getDMResponse state _] at line 44 *)
| AwaitVoice.                     (* [playNarration _] at line 78 *)

Record Home : Type := mkHome {
  gameState : option GameState.t;
  dmResponse : option DMResponse.t;
  loading : bool;
  audioPlaying : bool;
  error : option string;
  customAction : string;
  playerName : string;
  playerClass : string;
  audioRef_current : option Audio;
  pending : list Pending
}.

Definition init : Home :=
  {| gameState := None; dmResponse := None; loading := false;
     audioPlaying := false; error := None; customAction := "";
     playerName := ""; playerClass := "Rogue";
     audioRef_current := None; pending := [] |}.

(** What a handler does to the world outside the store. *)
Inductive Effect : Type :=
| Send (request : gameClient.Request)
| AudioPlay
| AudioPause.

(** A handler: a store transformer that logs its effects. *)
Definition Cmd : Type := Home -> Home * list Effect.

Definition skip : Cmd := fun h => (h, []).

Definition seq (c1 c2 : Cmd) : Cmd :=
  fun h =>
    let (h1, e1) := c1 h in
    let (h2, e2) := c2 h1 in
    (h2, (e1 ++ e2)%list).

Notation "c1 ;; c2" := (seq c1 c2) (at level 61, right associativity).

Definition upd (f : Home -> Home) : Cmd := fun h => (f h, []).

Definition emit (e : Effect) : Cmd := fun h => (h, [e]).

Definition setGameState (v : option GameState.t) : Cmd :=
  upd (fun h => mkHome v (dmResponse h) (loading h) (audioPlaying h) (error h)
                       (customAction h) (playerName h) (playerClass h)
                       (audioRef_current h) (pending h)).

Definition setDmResponse (v : option DMResponse.t) : Cmd :=
  upd (fun h => mkHome (gameState h) v (loading h) (audioPlaying h) (error h)
                       (customAction h) (playerName h) (playerClass h)
                       (audioRef_current h) (pending h)).

Definition setLoading (v : bool) : Cmd :=
  upd (fun h => mkHome (gameState h) (dmResponse h) v (audioPlaying h) (error h)
                       (customAction h) (playerName h) (playerClass h)
                       (audioRef_current h) (pending h)).

Definition setAudioPlaying (v : bool) : Cmd :=
  upd (fun h => mkHome (gameState h) (dmResponse h) (loading h) v (error h)
                       (customAction h) (playerName h) (playerClass h)
                       (audioRef_current h) (pending h)).

Definition setError (v : option string) : Cmd :=
  upd (fun h => mkHome (gameState h) (dmResponse h) (loading h) (audioPlaying h) v
                       (customAction h) (playerName h) (playerClass h)
                       (audioRef_current h) (pending h)).

Definition setCustomAction (v : string) : Cmd :=
  upd (fun h => mkHome (gameState h) (dmResponse h) (loading h) (audioPlaying h)
                       (error h) v (playerName h) (playerClass h)
                       (audioRef_current h) (pending h)).

Definition setPlayerName (v : string) : Cmd :=
  upd (fun h => mkHome (gameState h) (dmResponse h) (loading h) (audioPlaying h)
                       (error h) (customAction h) v (playerClass h)
                       (audioRef_current h) (pending h)).

Definition setPlayerClass (v : string) : Cmd :=
  upd (fun h => mkHome (gameState h) (dmResponse h) (loading h) (audioPlaying h)
                       (error h) (customAction h) (playerName h) v
                       (audioRef_current h) (pending h)).

Definition setAudio (v : option Audio) : Cmd :=
  upd (fun h => mkHome (gameState h) (dmResponse h) (loading h) (audioPlaying h)
                       (error h) (customAction h) (playerName h) (playerClass h)
                       v (pending h)).

Definition setPending (v : list Pending) : Cmd :=
  upd (fun h => mkHome (gameState h) (dmResponse h) (loading h) (audioPlaying h)
                       (error h) (customAction h) (playerName h) (playerClass h)
                       (audioRef_current h) v).

(** An [await]: the request leaves, the rest of the call is parked. *)
Definition await (request : gameClient.Request) (rest : Pending) : Cmd :=
  emit (Send request) ;; fun h => setPending (pending h ++ [rest])%list h.

(** ** page.tsx: the functions of the component *)

(** Lines 76-98, up to the [await] of line 78. *)
Definition playNarration (text : string) : Cmd :=
  await (gameClient.getVoiceNarration_request text) AwaitVoice.

(** Lines 78-97, from the [await] on. *)
Definition playNarration_resume (posted : Outcome VoiceResponse.t) : Cmd :=
  match gameClient.getVoiceNarration posted with
  | Resolved voiceResponse =>
      fun h =>
        match audioRef_current h with
        | Some a =>
            let audioData :=
              "data:audio/mp3;base64," ++ VoiceResponse.audio_base64 voiceResponse in
            (setAudio (Some (mkAudio audioData (onended a) (playing a))) ;;
             setAudioPlaying true ;;
             setAudio (Some (mkAudio audioData true (playing a))) ;;
             setAudio (Some (mkAudio audioData true true)) ;;
             emit AudioPlay) h
        | None => (h, [])
        end
  | Rejected err =>
      let message := message_of err "Failed to generate voice" in
      setError (Some message) ;; setLoading false
  end.

(** Lines 39-74, up to the [await] of line 44. *)
Definition getDMResponse (state : GameState.t) (action : option string) : Cmd :=
  setLoading true ;;
  setError None ;;
  await (gameClient.getDMResponse_request state action) (AwaitDM state).

(** Lines 44-73, from the [await] on. *)
Definition getDMResponse_resume (state : GameState.t)
           (posted : Outcome DMResponse.t) : Cmd :=
  match gameClient.getDMResponse posted with
  | Resolved response =>
      setDmResponse (Some response) ;;
      setGameState (Some (updatedState state response)) ;;
      (if truthy (DMResponse.dm_narration response)
       then playNarration (DMResponse.dm_narration response)
       else skip)
  | Rejected err =>
      let message := message_of err "Failed to get DM response" in
      setError (Some message) ;; setLoading false
  end.

(** Lines 22-37; the seed is what [generateCampaignSeed] drew. *)
Definition startAdventure (seed : string) : Cmd :=
  fun h =>
    let newState :=
      {| GameState.campaign_seed := seed;
         GameState.player_name := logical_or (playerName h) "Adventurer";
         GameState.player_class := playerClass h;
         GameState.inventory := [];
         GameState.hp := 20;
         GameState.location := "Starting Point";
         GameState.last_scene := "";
         GameState.turn_count := 0 |} in
    (setGameState (Some newState) ;;
     setError None ;;
     getDMResponse newState None) h.

(** Lines 100-107. *)
Definition skipAudio : Cmd :=
  (fun h =>
     match audioRef_current h with
     | Some a =>
         (setAudio (Some (mkAudio (src a) (onended a) false)) ;; emit AudioPause) h
     | None => (h, [])
     end) ;;
  setAudioPlaying false ;;
  setLoading false.

(** Lines 109-114. *)
Definition handleAction (action : string) : Cmd :=
  fun h =>
    match gameState h with
    | None => (h, [])
    | Some state =>
        (setCustomAction "" ;; getDMResponse state (Some action)) h
    end.

(** Lines 116-123. *)
Definition resetGame : Cmd :=
  setGameState None ;;
  setDmResponse None ;;
  setCustomAction "" ;;
  setError None ;;
  setPlayerName "" ;;
  setPlayerClass "Rogue".

(** The handler that line 85 installs on the audio element. *)
Definition onended_handler : Cmd :=
  setAudioPlaying false ;; setLoading false.

(** ** page.tsx, lines 125-381: what the rendered view offers *)

Inductive UserEvent : Type :=
| TypeCharacterName (value : string)      (* line 144 *)
| SelectCharacterClass (value : string)   (* line 156 *)
| ClickStartAdventure (seed : string)     (* line 173 *)
| ClickSkip                               (* line 211 *)
| ClickSuggested (idx : nat)              (* line 229 *)
| TypeCustomAction (value : string)       (* line 247 *)
| PressEnter                              (* line 248 *)
| ClickSend                               (* line 263 *)
| ClickStartNewAdventure                  (* line 281 *)
| ClickDismiss                            (* line 294 *)
| ClickNewGame.                           (* line 371 *)

(** [dmResponse && !dmResponse.game_over], lines 220 and 241. *)
Definition actionsShown (h : Home) : bool :=
  match dmResponse h with
  | Some r => negb (DMResponse.game_over r)
  | None => false
  end.

(** [dmResponse && dmResponse.game_over], line 274. *)
Definition gameOverShown (h : Home) : bool :=
  match dmResponse h with
  | Some r => DMResponse.game_over r
  | None => false
  end.

(** [error && !loading], line 290. *)
Definition errorShown (h : Home) : bool :=
  match error h with
  | Some message => truthy message && negb (loading h)
  | None => false
  end.

(** The options of the class [<select>], lines 159-162. *)
Definition classOptions : list string :=
  ["Rogue"; "Wizard"; "Warrior"; "Cleric"].

(** [dmResponse.suggested_actions.map(...)], line 226. *)
Definition suggestedList (r : DMResponse.t) : list string :=
  let '(a0, a1, a2) := DMResponse.suggested_actions r in [a0; a1; a2].

(** Whether the view holds the control of the event, rendered and not
    disabled. *)
Definition offered (h : Home) (ev : UserEvent) : bool :=
  match gameState h with
  | None =>
      match ev with
      | TypeCharacterName _ => true
      | SelectCharacterClass value => includes classOptions value
      | ClickStartAdventure _ => true
      | _ => false
      end
  | Some _ =>
      match ev with
      | ClickSkip => audioPlaying h
      | ClickSuggested idx =>
          actionsShown h && (idx <? 3)%nat
          && negb (loading h || audioPlaying h)
      | TypeCustomAction _ =>
          actionsShown h && negb (loading h || audioPlaying h)
      | PressEnter =>
          actionsShown h && negb (loading h || audioPlaying h)
      | ClickSend =>
          actionsShown h
          && negb (negb (truthy (customAction h)) || loading h || audioPlaying h)
      | ClickStartNewAdventure => gameOverShown h
      | ClickDismiss => errorShown h
      | ClickNewGame => true
      | _ => false
      end
  end.

(** The handler behind each control. *)
Definition handle (ev : UserEvent) : Cmd :=
  match ev with
  | TypeCharacterName value => setPlayerName value
  | SelectCharacterClass value => setPlayerClass value
  | ClickStartAdventure seed => startAdventure seed
  | ClickSkip => skipAudio
  | ClickSuggested idx =>
      fun h =>
        match dmResponse h with
        | Some r =>
            match nth_error (suggestedList r) idx with
            | Some action => handleAction action h
            | None => (h, [])
            end
        | None => (h, [])
        end
  | TypeCustomAction value => setCustomAction value
  | PressEnter =>
      fun h =>
        if truthy (customAction h) && negb (loading h) && negb (audioPlaying h)
        then handleAction (customAction h) h
        else (h, [])
  | ClickSend =>
      fun h =>
        if truthy (customAction h)
        then handleAction (customAction h) h
        else (h, [])
  | ClickStartNewAdventure => resetGame
  | ClickDismiss => setError None
  | ClickNewGame => resetGame
  end.

(** The events that submit a player action. *)
Definition is_action_submission (ev : UserEvent) : bool :=
  match ev with
  | ClickSuggested _ | PressEnter | ClickSend => true
  | _ => false
  end.

(** The events wired to [resetGame]. *)
Definition is_reset (ev : UserEvent) : bool :=
  match ev with
  | ClickStartNewAdventure | ClickNewGame => true
  | _ => false
  end.

(** ** The component as a transition system *)

(** After a handler has run React renders again: the [<audio>] element of
    line 206 belongs to the game screen only, so [audioRef.current] is an
    element while a game state is there and [null] on the start form. *)
Definition commit (h : Home) : Home :=
  match gameState h, audioRef_current h with
  | None, Some _ => fst (setAudio None h)
  | Some _, None => fst (setAudio (Some (mkAudio "" false false)) h)
  | _, _ => h
  end.

Definition rendered (r : Home * list Effect) : Home * list Effect :=
  (commit (fst r), snd r).

(** [xs] without its element of index [i]. *)
Fixpoint remove_nth {A : Type} (i : nat) (xs : list A) : list A :=
  match xs, i with
  | [], _ => []
  | _ :: tl, O => tl
  | x :: tl, S j => x :: remove_nth j tl
  end.

Inductive Event : Type :=
| User (ev : UserEvent)
| DMSettled (i : nat) (posted : Outcome DMResponse.t)
| VoiceSettled (i : nat) (posted : Outcome VoiceResponse.t)
| AudioEnded.

(** One event of the session: a control of the view is used, a request in
    flight settles and its suspended call goes on, or the narration ends. *)
Definition step (e : Event) (h : Home) : option (Home * list Effect) :=
  match e with
  | User ev =>
      if offered h ev then Some (rendered (handle ev h)) else None
  | DMSettled i posted =>
      match nth_error (pending h) i with
      | Some (AwaitDM state) =>
          Some (rendered
                  ((setPending (remove_nth i (pending h)) ;;
                    getDMResponse_resume state posted) h))
      | _ => None
      end
  | VoiceSettled i posted =>
      match nth_error (pending h) i with
      | Some AwaitVoice =>
          Some (rendered
                  ((setPending (remove_nth i (pending h)) ;;
                    playNarration_resume posted) h))
      | _ => None
      end
  | AudioEnded =>
      match audioRef_current h with
      | Some a =>
          if onended a && playing a
          then Some (rendered
                       ((setAudio (Some (mkAudio (src a) (onended a) false)) ;;
                         onended_handler) h))
          else None
      | None => None
      end
  end.

(** A run of events, with the effects it logs. *)
Fixpoint run (es : list Event) (h : Home) : option (Home * list Effect) :=
  match es with
  | [] => Some (h, [])
  | e :: es' =>
      match step e h with
      | Some (h1, effs1) =>
          match run es' h1 with
          | Some (h2, effs2) => Some (h2, (effs1 ++ effs2)%list)
          | None => None
          end
      | None => None
      end
  end.

(** The stores a session can be in. *)
Inductive reachable : Home -> Prop :=
| reachable_init : reachable init
| reachable_step e h h' effs :
    reachable h -> step e h = Some (h', effs) -> reachable h'.

(** Whether an effect is a request to the DM endpoint. *)
Definition is_dm_request (e : Effect) : bool :=
  match e with
  | Send (gameClient.PostDM _) => true
  | _ => false
  end.

(** The machine of the specification has not started: no game state, the
    start form is what the view renders. *)
Definition NotStarted (h : Home) : Prop :=
  gameState h = None /\ dmResponse h = None.

(** The player can submit an action: some suggested action is offered. *)
Definition awaitingPlayerAction (h : Home) : bool :=
  offered h (ClickSuggested 0).

(** The message of a failed DM call, as the [catch] of line 68 computes it
    from what the client threw. *)
Definition dmFailureMessage (e : Thrown) : string :=
  match gameClient.getDMResponse (Rejected e) with
  | Rejected err => message_of err "Failed to get DM response"
  | Resolved _ => ""
  end.

(** The message of a failed voice call, as the [catch] of line 92 computes
    it from what the client threw. *)
Definition voiceFailureMessage (e : Thrown) : string :=
  match gameClient.getVoiceNarration (Rejected e) with
  | Rejected err => message_of err "Failed to generate voice"
  | Resolved _ => ""
  end.

(** ** Concrete stores and responses used as test inputs *)

Definition noUpdates : StateUpdates.t :=
  StateUpdates.mk 0 [] [] "" "".

(** A hero at full health. *)
Definition fullHealth : GameState.t :=
  GameState.mk "k3x9q2m7a" "Aragorn" "Warrior" ["Sword"; "Torch"] 20
               "Forest" "Entered the dark forest" 5.

(** A response that heals five points. *)
Definition healFive : DMResponse.t :=
  DMResponse.mk "You drink the potion." "A moment of rest"
                ("Go on", "Rest", "Turn back")
                (StateUpdates.mk 5 [] [] "" "") false.

(** A response that trades the sword for a shield. *)
Definition swordForShield : DMResponse.t :=
  DMResponse.mk "The smith nods." "A trade"
                ("Go on", "Rest", "Turn back")
                (StateUpdates.mk 0 ["Shield"] ["Sword"] "" "") false.

(** The response of the README. *)
Definition goblinFight : DMResponse.t :=
  DMResponse.mk "The goblin lunges at you with surprising speed..."
                "A fierce battle in the forest"
                ("Roll for initiative", "Use a special ability", "Attempt to flee")
                (StateUpdates.mk (-2) ["Goblin's gold coin"] []
                                 "Dark Forest clearing" "Defeated a goblin")
                false.

(** A well-typed response whose narration is the empty string. *)
Definition silentTurn : DMResponse.t :=
  DMResponse.mk "" "A quiet road"
                ("Go on", "Rest", "Turn back") noUpdates false.

(** A response that ends the game. *)
Definition lastBreath : DMResponse.t :=
  DMResponse.mk "Darkness takes you." "The end"
                ("Go on", "Rest", "Turn back")
                (StateUpdates.mk (-20) [] [] "" "Fell in battle") true.

Definition someVoice : VoiceResponse.t :=
  VoiceResponse.mk "//NExAAqgI" "audio/mp3".

(** The store once the start button was pressed on a fresh page and the
    first DM request is in flight. *)
Definition firstRequestInFlight : Home :=
  match step (User (ClickStartAdventure "k3x9q2m7a")) init with
  | Some (h, _) => h
  | None => init
  end.

(** The store after [response] answered the first DM request. *)
Definition afterFirstResponse (response : DMResponse.t) : Home :=
  match step (DMSettled 0 (Resolved response)) firstRequestInFlight with
  | Some (h, _) => h
  | None => init
  end.

(** The store after [response] answered the first DM request and the voice
    request that followed failed with [e]. *)
Definition afterVoiceFailure (response : DMResponse.t) (e : Thrown) : Home :=
  match step (VoiceSettled 0 (Rejected e)) (afterFirstResponse response) with
  | Some (h, _) => h
  | None => init
  end.

(** A game state is behind every response the store holds. *)
Definition state_behind_response (h : Home) : Prop :=
  gameState h = None -> dmResponse h = None.

(** The events that neither reset the game nor bring a new DM response. *)
Definition keeps_last_response (e : Event) : bool :=
  match e with
  | User ev => negb (is_reset ev)
  | DMSettled _ (Resolved _) => false
  | _ => true
  end.

(** A session in which the player leaves the first adventure while its
    narration plays, starts a second one, and the voice request of the
    second one times out. *)
Definition leftDuringNarration : list Event :=
  [ User (ClickStartAdventure "k3x9q2m7a");
    DMSettled 0 (Resolved goblinFight);
    VoiceSettled 0 (Resolved someVoice);
    User ClickNewGame;
    User (ClickStartAdventure "p0w4z8c1d");
    DMSettled 0 (Resolved goblinFight);
    VoiceSettled 0 (Rejected (AxiosError "timeout of 60000ms exceeded")) ].

(** The store of that session when the DM request of the second adventure
    is in flight: the [audioPlaying] flag of the first one is still up. *)
Definition secondAdventureInFlight : Home :=
  match run (firstn 5 leftDuringNarration) init with
  | Some (h, _) => h
  | None => init
  end.

(** A session in which the player leaves an adventure while its first DM
    request is in flight, starts a second one, and the second one ends at
    once: the game is over while the request of the first is in flight. *)
Definition abandonedThenOver : list Event :=
  [ User (ClickStartAdventure "k3x9q2m7a");
    User ClickNewGame;
    User (ClickStartAdventure "p0w4z8c1d");
    DMSettled 1 (Resolved lastBreath) ].

Definition gameOverWithRequestInFlight : Home :=
  match run abandonedThenOver init with
  | Some (h, _) => h
  | None => init
  end.

(** What can follow without any reset: the response of the abandoned
    request arrives, both voice requests time out, and the player clicks
    the first suggestion. *)
Definition lateResponse : list Event :=
  [ DMSettled 0 (Resolved goblinFight);
    VoiceSettled 0 (Rejected (AxiosError "timeout of 60000ms exceeded"));
    VoiceSettled 0 (Rejected (AxiosError "timeout of 60000ms exceeded"));
    User (ClickSuggested 0) ].

(** ** Predicates on stores and events *)

(** Whether what was thrown is an axios error. *)
Definition isAxiosError (e : Thrown) : bool :=
  match e with
  | AxiosError _ => true
  | _ => false
  end.

(** What the client lets out of a rejected post is never an axios error. *)
Definition no_axios_error {A : Type} (o : Outcome A) : bool :=
  match o with
  | Resolved _ => true
  | Rejected e => negb (isAxiosError e)
  end.

(** A game state as the component builds them: a name, one of the four
    classes, health and turn count not below zero. *)
Definition sound_state (g : GameState.t) : Prop :=
  GameState.player_name g <> ""
  /\ In (GameState.player_class g) classOptions
  /\ 0 <= GameState.hp g
  /\ 0 <= GameState.turn_count g.

Definition sound_pending (p : Pending) : Prop :=
  match p with
  | AwaitDM state => sound_state state
  | AwaitVoice => True
  end.

(** The store holds sound states only, on display and in flight; a
    response is only on display with a state that counts a turn. *)
Definition sound_store (h : Home) : Prop :=
  In (playerClass h) classOptions
  /\ state_behind_response h
  /\ (forall g, gameState h = Some g -> sound_state g)
  /\ Forall sound_pending (pending h)
  /\ (forall g, gameState h = Some g -> dmResponse h <> None ->
                1 <= GameState.turn_count g).

(** The events other than a reset of the game. *)
Definition no_reset (e : Event) : bool :=
  match e with
  | User ev => negb (is_reset ev)
  | _ => true
  end.

(** Whether an effect is a request. *)
Definition is_request (e : Effect) : bool :=
  match e with
  | Send _ => true
  | _ => false
  end.

(** One request at a time: what the flags of the component keep while no
    reset happens. *)
Definition one_at_a_time (h : Home) : Prop :=
  (gameState h = None ->
   pending h = [] /\ audioPlaying h = false /\ audioRef_current h = None)
  /\ (gameState h <> None -> audioRef_current h <> None)
  /\ (List.length (pending h) <= 1)%nat
  /\ (pending h <> [] -> loading h = true /\ audioPlaying h = false)
  /\ (forall a, audioRef_current h = Some a -> playing a = true ->
                audioPlaying h = true).

(** The audio element once the game screen is rendered: the one that is
    there, or a fresh one. *)
Definition mounted (h : Home) : option Audio :=
  match audioRef_current h with
  | Some a => Some a
  | None => Some (mkAudio "" false false)
  end.

(** A store in which the player can act, and the events of a full turn on
    the [idx]-th suggestion: the click, the DM response, the voice
    response, the end of the narration. *)
Definition fullTurn (h : Home) (idx : nat) (response : DMResponse.t)
           (voice : VoiceResponse.t) (last : Event) : list Event :=
  [ User (ClickSuggested idx);
    DMSettled (List.length (pending h)) (Resolved response);
    VoiceSettled (List.length (pending h)) (Resolved voice);
    last ].

(** Whether an effect is a request to the voice endpoint. *)
Definition is_voice_request (e : Effect) : bool :=
  match e with
  | Send (gameClient.PostVoice _) => true
  | _ => false
  end.

(** The game state that "Start Adventure" builds from the form. *)
Definition freshState (h : Home) (seed : string) : GameState.t :=
  GameState.mk seed
               (if String.eqb (playerName h) "" then "Adventurer" else playerName h)
               (playerClass h) [] 20 "Starting Point" "" 0.

(** The store of the first turn once the voice request failed on a
    timeout: the goblin fight is on display and the player can act. *)
Definition playerToAct : Home :=
  afterVoiceFailure goblinFight (AxiosError "timeout of 60000ms exceeded").

(** The same store with a custom action typed in. *)
Definition doorTyped : Home :=
  match step (User (TypeCustomAction "Open the door")) playerToAct with
  | Some (h, _) => h
  | None => init
  end.

(** The store of the first turn while its narration plays. *)
Definition narrationPlaying : Home :=
  match step (VoiceSettled 0 (Resolved someVoice)) (afterFirstResponse goblinFight) with
  | Some (h, _) => h
  | None => init
  end.

(** The game state the first request travels with. *)
Definition firstState : GameState.t :=
  GameState.mk "k3x9q2m7a" "Adventurer" "Rogue" [] 20 "Starting Point" "" 0.

(** Whether an event brings a DM response. *)
Definition is_dm_response (e : Event) : bool :=
  match e with
  | DMSettled _ (Resolved _) => true
  | _ => false
  end.

(** The turn count on display is the number [n] of DM responses received,
    and a DM request in flight travels with the state on display. *)
Definition counts_turns (n : nat) (h : Home) : Prop :=
  (gameState h = None -> n = 0%nat)
  /\ (forall g, gameState h = Some g -> GameState.turn_count g = Z.of_nat n)
  /\ (forall state, In (AwaitDM state) (pending h) -> gameState h = Some state).

(** ** Proof steps that come back *)

(** Unfold the commands of the component down to record updates. *)
Ltac open_cmds :=
  unfold handle, startAdventure, handleAction, resetGame, skipAudio,
    onended_handler, getDMResponse, getDMResponse_resume,
    playNarration_resume, playNarration, await, seq, upd, emit, skip,
    setGameState, setDmResponse, setLoading, setAudioPlaying, setError,
    setCustomAction, setPlayerName, setPlayerClass, setAudio, setPending in *.

Ltac open_view :=
  unfold awaitingPlayerAction, offered, actionsShown, gameOverShown,
    errorShown in *.

(** Decide every [match] and [if] of the goal. *)
Ltac split_matches :=
  repeat match goal with
         | |- context [match ?x with _ => _ end] => destruct x eqn:?
         | |- context [if ?x then _ else _] => destruct x eqn:?
         end.

(** Close the cases of the one-at-a-time invariant. *)
Ltac finish_one_at_a_time :=
  cbn; repeat split; intros; try discriminate; try congruence; try lia;
  eauto;
  repeat match goal with
         | H : Some _ = Some _ |- _ => inversion H; subst; clear H
         end;
  cbn in *; try discriminate; try congruence; eauto;
  try (intuition congruence).

(** Decide a closed equation by evaluation. *)
Ltac by_eval := vm_compute; reflexivity.

(** * Properties *)

(** ** Helper lemmas on the update *)

Lemma includes_In (xs : list string) (x : string) :
  includes xs x = true <-> In x xs.
Proof.
  induction xs as [| y ys IH]; simpl.
  - split; [discriminate | contradiction].
  - destruct (String.eqb_spec y x) as [-> | Hne].
    + split; auto.
    + rewrite IH. split; [auto | intros [Heq | Hin]; [contradiction | exact Hin]].
Qed.

Lemma includes_in_dec (xs : list string) (x : string) :
  negb (includes xs x) = if in_dec string_dec x xs then false else true.
Proof.
  destruct (in_dec string_dec x xs) as [Hin | Hout].
  - apply includes_In in Hin. now rewrite Hin.
  - destruct (includes xs x) eqn:E; [| reflexivity].
    apply includes_In in E. contradiction.
Qed.

Lemma filter_all {A : Type} (p : A -> bool) (xs : list A) :
  (forall x, In x xs -> p x = true) -> filter p xs = xs.
Proof.
  induction xs as [| x tl IH]; simpl; intros Hall; [reflexivity |].
  rewrite (Hall x (or_introl eq_refl)). f_equal. apply IH. auto.
Qed.

Lemma updatedState_hp (state : GameState.t) (response : DMResponse.t) :
  GameState.hp (updatedState state response)
  = Z.max 0 (GameState.hp state
             + StateUpdates.hp_delta (DMResponse.state_updates response)).
Proof. reflexivity. Qed.

(** The floor of the update is kept. *)
Lemma updatedState_hp_nonneg (state : GameState.t) (response : DMResponse.t) :
  0 <= GameState.hp (updatedState state response).
Proof. rewrite updatedState_hp. lia. Qed.

(** Below the cap the update is the clamp of the specification. *)
Lemma updatedState_hp_clamp_below_cap (state : GameState.t) (response : DMResponse.t) :
  GameState.hp state
  + StateUpdates.hp_delta (DMResponse.state_updates response) <= 20 ->
  GameState.hp (updatedState state response)
  = clamp (GameState.hp state
           + StateUpdates.hp_delta (DMResponse.state_updates response)) 0 20.
Proof. intros H. rewrite updatedState_hp. unfold clamp. lia. Qed.

(** Above the cap nothing holds the sum back. *)
Lemma updatedState_hp_above_cap (state : GameState.t) (response : DMResponse.t) :
  20 < GameState.hp state
       + StateUpdates.hp_delta (DMResponse.state_updates response) ->
  GameState.hp (updatedState state response)
  = GameState.hp state
    + StateUpdates.hp_delta (DMResponse.state_updates response).
Proof. intros H. rewrite updatedState_hp. lia. Qed.

Lemma or_empty (b : string) : logical_or "" b = b.
Proof. reflexivity. Qed.

Lemma or_nonempty (a b : string) : a <> "" -> logical_or a b = a.
Proof. destruct a; [congruence | reflexivity]. Qed.

(** ** The claims on the update of the game state *)

(** C1 (the code departs from it). The claim: for [hp] between 0 and 20 the
    updated [hp] is [clamp (hp + hp_delta) 0 20] and never leaves that
    interval. The source computes [Math.max(0, hp + hp_delta)] for every
    state and response: there is a floor and no cap. At full health (20) a
    delta of +5 gives 25, where the clamp of the claim gives 20. *)
Theorem C1_hp_update_has_no_cap :
  (forall state response,
      GameState.hp (updatedState state response)
      = Z.max 0 (GameState.hp state
                 + StateUpdates.hp_delta (DMResponse.state_updates response)))
  /\ 0 <= GameState.hp fullHealth <= 20
  /\ GameState.hp (updatedState fullHealth healFive) = 25
  /\ clamp (GameState.hp fullHealth
            + StateUpdates.hp_delta (DMResponse.state_updates healFive)) 0 20 = 20.
Proof.
  split; [intros; apply updatedState_hp |].
  repeat split; simpl; try lia; reflexivity.
Qed.

(** C3. The updated inventory is exactly the held items without those that
    [inventory_remove] names, in their order, followed by the items of
    [inventory_add] in their order. Hence every added item is in the result,
    also one that is removed as well; a removed name that is not held
    changes nothing; and ["Sword"; "Torch"] with remove ["Sword"] and add
    ["Shield"] gives ["Torch"; "Shield"]. *)
Theorem C3_inventory_remove_then_add (state : GameState.t) (response : DMResponse.t) :
  let u := DMResponse.state_updates response in
  let held := GameState.inventory state in
  let result := GameState.inventory (updatedState state response) in
  result = remove_then_add held (StateUpdates.inventory_remove u)
                           (StateUpdates.inventory_add u)
  /\ (forall item, In item (StateUpdates.inventory_add u) -> In item result)
  /\ (forall item,
         In item result <->
         In item (StateUpdates.inventory_add u)
         \/ (In item held /\ ~ In item (StateUpdates.inventory_remove u)))
  /\ ((forall item, In item (StateUpdates.inventory_remove u) -> ~ In item held) ->
      result = (held ++ StateUpdates.inventory_add u)%list)
  /\ (held = ["Sword"; "Torch"] ->
      StateUpdates.inventory_remove u = ["Sword"] ->
      StateUpdates.inventory_add u = ["Shield"] ->
      result = ["Torch"; "Shield"]).
Proof.
  intros u held result. subst result. unfold updatedState. simpl.
  fold u. fold held.
  assert (Hmem : forall item,
             In item (filter (fun i => negb (includes (StateUpdates.inventory_remove u) i)) held)
             <-> In item held /\ ~ In item (StateUpdates.inventory_remove u)).
  { intros item. rewrite filter_In, negb_true_iff.
    split; intros [Hin Hrem]; split; auto.
    - intros Hc. apply includes_In in Hc. congruence.
    - destruct (includes (StateUpdates.inventory_remove u) item) eqn:E; auto.
      apply includes_In in E. contradiction. }
  split; [| split; [| split; [| split]]].
  - unfold remove_then_add. f_equal.
    apply filter_ext. intros item. apply includes_in_dec.
  - intros item Hin. apply in_or_app. now right.
  - intros item. rewrite in_app_iff, Hmem. tauto.
  - intros Habsent. f_equal. apply filter_all.
    intros item Hin. apply negb_true_iff.
    destruct (includes (StateUpdates.inventory_remove u) item) eqn:E; auto.
    apply includes_In in E. exfalso. exact (Habsent item E Hin).
  - intros -> -> ->. reflexivity.
Qed.

Lemma C3_inventory_witness :
  GameState.inventory (updatedState fullHealth swordForShield) = ["Torch"; "Shield"]
  /\ In "Shield" (GameState.inventory (updatedState fullHealth swordForShield)).
Proof.
  pose proof (C3_inventory_remove_then_add fullHealth swordForShield) as H.
  cbv zeta in H. destruct H as (_ & Hadd & _ & _ & Hex).
  split.
  - apply Hex; reflexivity.
  - apply Hadd. simpl. auto.
Defined.

(** C4. An empty [location] (respectively [last_scene]) in the delta keeps
    the previous value; a non-empty one replaces it whole. *)
Theorem C4_location_and_scene (state : GameState.t) (response : DMResponse.t) :
  let u := DMResponse.state_updates response in
  let next := updatedState state response in
  (StateUpdates.location u = "" ->
   GameState.location next = GameState.location state)
  /\ (StateUpdates.location u <> "" ->
      GameState.location next = StateUpdates.location u)
  /\ (StateUpdates.last_scene u = "" ->
      GameState.last_scene next = GameState.last_scene state)
  /\ (StateUpdates.last_scene u <> "" ->
      GameState.last_scene next = StateUpdates.last_scene u).
Proof.
  intros u next. subst next. unfold updatedState. simpl. fold u.
  split; [| split; [| split]].
  - intros ->. apply or_empty.
  - apply or_nonempty.
  - intros ->. apply or_empty.
  - apply or_nonempty.
Qed.

Lemma C4_location_and_scene_witness :
  GameState.location (updatedState fullHealth healFive) = "Forest"
  /\ GameState.location (updatedState fullHealth goblinFight) = "Dark Forest clearing"
  /\ GameState.last_scene (updatedState fullHealth healFive) = "Entered the dark forest"
  /\ GameState.last_scene (updatedState fullHealth goblinFight) = "Defeated a goblin".
Proof.
  pose proof (C4_location_and_scene fullHealth healFive) as Hkeep.
  pose proof (C4_location_and_scene fullHealth goblinFight) as Hnew.
  cbv zeta in Hkeep, Hnew.
  destruct Hkeep as (Hk1 & _ & Hk2 & _). destruct Hnew as (_ & Hn1 & _ & Hn2).
  split; [| split; [| split]].
  - apply Hk1. reflexivity.
  - apply Hn1. discriminate.
  - apply Hk2. reflexivity.
  - apply Hn2. discriminate.
Defined.

(** C9. The update copies [campaign_seed], [player_name] and [player_class]
    from the state it starts from, so after any number of turns of a session
    they are those of the state the adventure started with. *)
Theorem C9_identity_fields_fixed (state : GameState.t) (responses : list DMResponse.t) :
  let final := fold_left updatedState responses state in
  GameState.campaign_seed final = GameState.campaign_seed state
  /\ GameState.player_name final = GameState.player_name state
  /\ GameState.player_class final = GameState.player_class state.
Proof.
  revert state. induction responses as [| r rs IH]; intros state; simpl.
  - auto.
  - destruct (IH (updatedState state r)) as (Hseed & Hname & Hclass).
    rewrite Hseed, Hname, Hclass. auto.
Qed.

(** ** Helper lemmas on the commands of the component *)

Lemma commit_gameState (h : Home) : gameState (commit h) = gameState h.
Proof. unfold commit. destruct (gameState h) eqn:G, (audioRef_current h); cbn; auto. Qed.

Lemma commit_dmResponse (h : Home) : dmResponse (commit h) = dmResponse h.
Proof. unfold commit. destruct (gameState h) eqn:G, (audioRef_current h); cbn; auto. Qed.

Lemma commit_loading (h : Home) : loading (commit h) = loading h.
Proof. unfold commit. destruct (gameState h) eqn:G, (audioRef_current h); cbn; auto. Qed.

Lemma commit_audioPlaying (h : Home) : audioPlaying (commit h) = audioPlaying h.
Proof. unfold commit. destruct (gameState h) eqn:G, (audioRef_current h); cbn; auto. Qed.

Lemma commit_error (h : Home) : error (commit h) = error h.
Proof. unfold commit. destruct (gameState h) eqn:G, (audioRef_current h); cbn; auto. Qed.

Lemma commit_customAction (h : Home) : customAction (commit h) = customAction h.
Proof. unfold commit. destruct (gameState h) eqn:G, (audioRef_current h); cbn; auto. Qed.

Lemma commit_pending (h : Home) : pending (commit h) = pending h.
Proof. unfold commit. destruct (gameState h) eqn:G, (audioRef_current h); cbn; auto. Qed.

(** What the view offers depends on the hooks only, not on the element. *)
Lemma offered_commit (h : Home) (ev : UserEvent) :
  offered (commit h) ev = offered h ev.
Proof.
  open_view.
  rewrite commit_gameState, commit_dmResponse, commit_loading,
    commit_audioPlaying, commit_error, commit_customAction.
  reflexivity.
Qed.

Lemma nth_error_snoc {A : Type} (xs : list A) (x : A) :
  nth_error (xs ++ [x])%list (List.length xs) = Some x.
Proof. induction xs as [| y ys IH]; simpl; auto. Qed.

Lemma message_of_nonempty (e : Thrown) (fallback : string) :
  e <> Error "" -> e <> AxiosError "" -> fallback <> "" ->
  message_of e fallback <> "".
Proof.
  destruct e as [m | m |]; simpl; intros H1 H2 H3; auto; congruence.
Qed.

Lemma dmFailureMessage_nonempty (e : Thrown) :
  e <> Error "" -> dmFailureMessage e <> "".
Proof.
  destruct e as [m | m |]; unfold dmFailureMessage; simpl; intros H.
  - discriminate.
  - congruence.
  - discriminate.
Qed.

Lemma voiceFailureMessage_nonempty (e : Thrown) :
  e <> Error "" -> voiceFailureMessage e <> "".
Proof.
  destruct e as [m | m |]; unfold voiceFailureMessage; simpl; intros H.
  - discriminate.
  - congruence.
  - discriminate.
Qed.

Lemma truthy_nonempty (s : string) : s <> "" -> truthy s = true.
Proof. destruct s; [congruence | reflexivity]. Qed.

Lemma getDMResponse_resume_rejected (state : GameState.t) (e : Thrown) :
  getDMResponse_resume state (Rejected e)
  = (setError (Some (dmFailureMessage e)) ;; setLoading false).
Proof. destruct e; reflexivity. Qed.

Lemma playNarration_resume_rejected (e : Thrown) :
  playNarration_resume (Rejected e)
  = (setError (Some (voiceFailureMessage e)) ;; setLoading false).
Proof. destruct e; reflexivity. Qed.

(** The [catch] of a DM call: what one step does when the request of a
    suspended [getDMResponse] is rejected. *)
Lemma step_dm_rejected (h : Home) (i : nat) (state : GameState.t) (e : Thrown) :
  nth_error (pending h) i = Some (AwaitDM state) ->
  exists h',
    step (DMSettled i (Rejected e)) h = Some (h', [])
    /\ gameState h' = gameState h
    /\ dmResponse h' = dmResponse h
    /\ audioPlaying h' = audioPlaying h
    /\ loading h' = false
    /\ error h' = Some (dmFailureMessage e)
    /\ pending h' = remove_nth i (pending h).
Proof.
  intros Hp. unfold step. rewrite Hp, getDMResponse_resume_rejected.
  eexists. split.
  - unfold rendered. open_cmds. cbn. reflexivity.
  - rewrite commit_gameState, commit_dmResponse, commit_audioPlaying,
      commit_loading, commit_error, commit_pending.
    cbn. auto 10.
Qed.

(** The [try] of a DM call: what one step does when the request of a
    suspended [getDMResponse] is answered. *)
Lemma step_dm_resolved (h : Home) (i : nat) (state : GameState.t)
      (response : DMResponse.t) :
  nth_error (pending h) i = Some (AwaitDM state) ->
  exists h',
    step (DMSettled i (Resolved response)) h
    = Some (h',
            if truthy (DMResponse.dm_narration response)
            then [Send (gameClient.getVoiceNarration_request
                          (DMResponse.dm_narration response))]
            else [])
    /\ gameState h' = Some (updatedState state response)
    /\ dmResponse h' = Some response
    /\ loading h' = loading h
    /\ audioPlaying h' = audioPlaying h
    /\ error h' = error h
    /\ customAction h' = customAction h
    /\ pending h'
       = (remove_nth i (pending h)
          ++ if truthy (DMResponse.dm_narration response)
             then [AwaitVoice] else [])%list.
Proof.
  intros Hp. unfold step. rewrite Hp.
  exists (fst (rendered ((setPending (remove_nth i (pending h)) ;;
                          getDMResponse_resume state (Resolved response)) h))).
  split.
  - unfold rendered. open_cmds. cbn.
    destruct (truthy (DMResponse.dm_narration response)); cbn; reflexivity.
  - unfold rendered. cbn [fst].
    rewrite commit_gameState, commit_dmResponse, commit_audioPlaying,
      commit_loading, commit_error, commit_customAction, commit_pending.
    open_cmds. cbn.
    destruct (truthy (DMResponse.dm_narration response)); cbn;
      rewrite ?app_nil_r; auto 10.
Qed.

(** The [catch] of a voice call. *)
Lemma step_voice_rejected (h : Home) (i : nat) (e : Thrown) :
  nth_error (pending h) i = Some AwaitVoice ->
  exists h',
    step (VoiceSettled i (Rejected e)) h = Some (h', [])
    /\ gameState h' = gameState h
    /\ dmResponse h' = dmResponse h
    /\ audioPlaying h' = audioPlaying h
    /\ customAction h' = customAction h
    /\ loading h' = false
    /\ error h' = Some (voiceFailureMessage e)
    /\ pending h' = remove_nth i (pending h).
Proof.
  intros Hp. unfold step. rewrite Hp, playNarration_resume_rejected.
  eexists. split.
  - unfold rendered. open_cmds. cbn. reflexivity.
  - rewrite commit_gameState, commit_dmResponse, commit_audioPlaying,
      commit_customAction, commit_loading, commit_error, commit_pending.
    cbn. auto 10.
Qed.

(** The call part of [getDMResponse] touches neither the game state nor the
    last response; it parks its rest behind what is already in flight. *)
Lemma getDMResponse_call (state : GameState.t) (action : option string) (h : Home) :
  exists h',
    getDMResponse state action h
    = (h', [Send (gameClient.getDMResponse_request state action)])
    /\ gameState h' = gameState h
    /\ dmResponse h' = dmResponse h
    /\ loading h' = true
    /\ pending h' = (pending h ++ [AwaitDM state])%list.
Proof. eexists. split; [open_cmds; cbn; reflexivity | cbn; auto]. Qed.

(** ** The claims on one DM round trip *)

(** C6. When the DM request of a suspended [getDMResponse state _] is
    answered, whatever the response holds, the step goes through and the
    game state it leaves has the [turn_count] of [state] plus one, [state]
    being the game state the request was sent with. *)
Theorem C6_turn_count_plus_one (h : Home) (i : nat) (state : GameState.t)
        (response : DMResponse.t) :
  nth_error (pending h) i = Some (AwaitDM state) ->
  exists h' effs next,
    step (DMSettled i (Resolved response)) h = Some (h', effs)
    /\ gameState h' = Some next
    /\ next = updatedState state response
    /\ GameState.turn_count next = GameState.turn_count state + 1.
Proof.
  intros Hp.
  destruct (step_dm_resolved h i state response Hp) as (h' & Hstep & Hgs & _).
  exists h'. eexists. exists (updatedState state response).
  repeat split; eauto.
Qed.

Lemma C6_turn_count_witness :
  exists h' effs next,
    step (DMSettled 0 (Resolved goblinFight)) firstRequestInFlight = Some (h', effs)
    /\ gameState h' = Some next
    /\ next = updatedState
                (GameState.mk "k3x9q2m7a" "Adventurer" "Rogue" [] 20
                              "Starting Point" "" 0)
                goblinFight
    /\ GameState.turn_count next = 0 + 1.
Proof.
  apply (C6_turn_count_plus_one firstRequestInFlight 0
           (GameState.mk "k3x9q2m7a" "Adventurer" "Rogue" [] 20
                         "Starting Point" "" 0)
           goblinFight).
  reflexivity.
Defined.

(** An action submitted on a game state sends that state and parks the
    call with it: the "previous" state of C6 is the one on display. *)
Lemma handleAction_sends_current_state (h : Home) (action : string) (g : GameState.t) :
  gameState h = Some g ->
  exists h',
    handleAction action h
    = (h', [Send (gameClient.getDMResponse_request g (Some action))])
    /\ gameState h' = Some g
    /\ dmResponse h' = dmResponse h
    /\ pending h' = (pending h ++ [AwaitDM g])%list.
Proof.
  intros Hg. unfold handleAction. rewrite Hg.
  eexists. split; [open_cmds; cbn; reflexivity | cbn; auto].
Qed.

(** C5. When the DM request of a suspended [getDMResponse] fails on the
    transport (an axios error, such as a timeout, with any message), the
    step goes through and sends nothing; the game state (hence its
    [turn_count]) and the last response are exactly as before; [loading] is
    cleared; and the error on display is "Failed to get DM response: "
    followed by the axios message, which is not empty, and its banner is
    rendered. State, response and [loading] come out the same whatever was
    thrown; the message is then what was thrown says, non-empty for
    everything but an [Error] of another kind with an empty message of its
    own. The call itself, up to its [await], had touched neither the game
    state nor the response. *)
Theorem C5_failed_dm_call_keeps_state (h : Home) (i : nat) (state : GameState.t)
        (m : string) :
  nth_error (pending h) i = Some (AwaitDM state) ->
  (exists h',
      step (DMSettled i (Rejected (AxiosError m))) h = Some (h', [])
      /\ gameState h' = gameState h
      /\ dmResponse h' = dmResponse h
      /\ loading h' = false
      /\ error h' = Some ("Failed to get DM response: " ++ m)
      /\ "Failed to get DM response: " ++ m <> ""
      /\ errorShown h' = true)
  /\ (forall e,
         exists h',
           step (DMSettled i (Rejected e)) h = Some (h', [])
           /\ gameState h' = gameState h
           /\ dmResponse h' = dmResponse h
           /\ loading h' = false
           /\ error h' = Some (dmFailureMessage e)
           /\ (e <> Error "" -> dmFailureMessage e <> "" /\ errorShown h' = true))
  /\ (forall action h0,
         gameState (fst (getDMResponse state action h0)) = gameState h0
         /\ dmResponse (fst (getDMResponse state action h0)) = dmResponse h0).
Proof.
  intros Hp.
  assert (Hall : forall e,
             exists h',
               step (DMSettled i (Rejected e)) h = Some (h', [])
               /\ gameState h' = gameState h
               /\ dmResponse h' = dmResponse h
               /\ loading h' = false
               /\ error h' = Some (dmFailureMessage e)
               /\ (e <> Error "" -> dmFailureMessage e <> "" /\ errorShown h' = true)).
  { intros e.
    destruct (step_dm_rejected h i state e Hp)
      as (h' & Hstep & Hgs & Hdr & _ & Hld & Herr & _).
    exists h'. repeat (split; [assumption |]).
    intros Hne. pose proof (dmFailureMessage_nonempty e Hne) as Hmsg.
    split; [exact Hmsg |].
    unfold errorShown. rewrite Herr, Hld, (truthy_nonempty _ Hmsg). reflexivity. }
  split; [| split; [exact Hall |]].
  - destruct (Hall (AxiosError m)) as (h' & Hstep & Hgs & Hdr & Hld & Herr & Hshown).
    destruct Hshown as (Hmsg & Hban); [discriminate |].
    exists h'. repeat (split; [assumption |]). exact Hban.
  - intros action h0.
    destruct (getDMResponse_call state action h0) as (h1 & Hcall & Hg & Hd & _).
    rewrite Hcall. auto.
Qed.

Lemma C5_failed_dm_call_witness :
  exists h',
    step (DMSettled 0 (Rejected (AxiosError "timeout of 60000ms exceeded")))
         firstRequestInFlight = Some (h', [])
    /\ gameState h' = gameState firstRequestInFlight
    /\ dmResponse h' = None
    /\ loading h' = false
    /\ error h' = Some "Failed to get DM response: timeout of 60000ms exceeded"
    /\ errorShown h' = true.
Proof.
  destruct (C5_failed_dm_call_keeps_state firstRequestInFlight 0
              (GameState.mk "k3x9q2m7a" "Adventurer" "Rogue" [] 20
                            "Starting Point" "" 0)
              "timeout of 60000ms exceeded" eq_refl)
    as ((h' & Hstep & Hgs & Hdr & Hld & Herr & _ & Hshown) & _).
  exists h'. repeat (split; [assumption |]).
  exact Hshown.
Defined.

(** C2 (the code departs from it). When the answered response has the empty
    narration, no voice request is sent and nothing is parked: that much of
    the claim holds. But the success path of [getDMResponse] never calls
    [setLoading(false)]: [loading] is only cleared by the two [catch]
    clauses, by the [onended] handler and by [skipAudio]. So [loading] stays
    as the call set it, and every control that submits an action stays
    disabled. *)
Theorem C2_empty_narration_keeps_loading (h : Home) (i : nat)
        (state : GameState.t) (response : DMResponse.t) :
  nth_error (pending h) i = Some (AwaitDM state) ->
  DMResponse.dm_narration response = "" ->
  loading h = true ->
  exists h',
    step (DMSettled i (Resolved response)) h = Some (h', [])
    /\ pending h' = remove_nth i (pending h)
    /\ gameState h' = Some (updatedState state response)
    /\ dmResponse h' = Some response
    /\ loading h' = true
    /\ awaitingPlayerAction h' = false
    /\ (forall ev, is_action_submission ev = true -> offered h' ev = false).
Proof.
  intros Hp Hnarr Hload.
  destruct (step_dm_resolved h i state response Hp)
    as (h' & Hstep & Hgs & Hdr & Hld & Hap & _ & _ & Hpend).
  rewrite Hnarr in Hstep, Hpend. cbn in Hstep, Hpend. rewrite app_nil_r in Hpend.
  rewrite Hload in Hld.
  exists h'. repeat (split; [assumption |]).
  split.
  - open_view. rewrite Hgs, Hdr, Hld. cbn. now rewrite andb_false_r.
  - intros ev Hev. open_view. rewrite Hgs, Hdr, Hld.
    destruct ev; try discriminate; cbn; rewrite ?orb_true_r, ?andb_false_r;
      reflexivity.
Qed.

Lemma C2_empty_narration_witness :
  exists h',
    step (DMSettled 0 (Resolved silentTurn)) firstRequestInFlight = Some (h', [])
    /\ pending h' = []
    /\ gameState h' = Some (updatedState
                              (GameState.mk "k3x9q2m7a" "Adventurer" "Rogue" [] 20
                                            "Starting Point" "" 0)
                              silentTurn)
    /\ dmResponse h' = Some silentTurn
    /\ loading h' = true
    /\ awaitingPlayerAction h' = false
    /\ (forall ev, is_action_submission ev = true -> offered h' ev = false).
Proof.
  apply (C2_empty_narration_keeps_loading firstRequestInFlight 0
           (GameState.mk "k3x9q2m7a" "Adventurer" "Rogue" [] 20
                         "Starting Point" "" 0)
           silentTurn); reflexivity.
Defined.

(** After the silent first turn the only control left is "New Game": the
    player cannot go on with the adventure. *)
Lemma silent_turn_leaves_only_new_game (ev : UserEvent) :
  offered (afterFirstResponse silentTurn) ev = true -> ev = ClickNewGame.
Proof.
  destruct ev; cbn; try discriminate; try reflexivity.
  destruct idx as [| [| [| idx]]]; discriminate.
Qed.

(** ** The claim on the end of the game *)

(** What a handler of the view does to the game state and the response. *)
Lemma handle_game_fields (ev : UserEvent) (h : Home) :
  (is_reset ev = true
   /\ gameState (fst (handle ev h)) = None
   /\ dmResponse (fst (handle ev h)) = None)
  \/ (is_reset ev = false
      /\ dmResponse (fst (handle ev h)) = dmResponse h
      /\ (gameState (fst (handle ev h)) = gameState h
          \/ exists g, gameState (fst (handle ev h)) = Some g)).
Proof.
  destruct h as [gs dr ld ap er ca pn pc [a |] pd];
    destruct ev; open_cmds; cbn; auto 6;
    split_matches; cbn; eauto 7.
Qed.

Lemma step_state_behind_response (e : Event) (h h' : Home) (effs : list Effect) :
  state_behind_response h ->
  step e h = Some (h', effs) ->
  state_behind_response h'.
Proof.
  intros Hinv Hstep. unfold state_behind_response in *.
  destruct e as [ev | i posted | i posted |]; unfold step in Hstep.
  - destruct (offered h ev); [| discriminate].
    inversion Hstep; subst; clear Hstep. unfold rendered. cbn [fst].
    rewrite commit_gameState, commit_dmResponse.
    destruct (handle_game_fields ev h) as [(_ & Hg & Hd) | (_ & Hd & [Hg | [g Hg]])];
      rewrite ?Hg, ?Hd; auto; discriminate.
  - destruct (nth_error (pending h) i) as [[state |] |] eqn:Hp; try discriminate.
    destruct posted as [response | err].
    + destruct (step_dm_resolved h i state response Hp) as (h1 & Hs & Hg & _).
      unfold step in Hs. rewrite Hp in Hs. rewrite Hs in Hstep.
      inversion Hstep; subst. rewrite Hg. discriminate.
    + destruct (step_dm_rejected h i state err Hp) as (h1 & Hs & Hg & Hd & _).
      unfold step in Hs. rewrite Hp in Hs. rewrite Hs in Hstep.
      inversion Hstep; subst. rewrite Hg, Hd. exact Hinv.
  - destruct (nth_error (pending h) i) as [[state |] |] eqn:Hp; try discriminate.
    inversion Hstep; subst; clear Hstep. unfold rendered. cbn [fst].
    rewrite commit_gameState, commit_dmResponse.
    destruct h as [gs dr ld ap er ca pn pc [a |] pd];
      destruct posted as [v | [m | m |]]; open_cmds; cbn in *; exact Hinv.
  - destruct (audioRef_current h) as [a |] eqn:Ha; [| discriminate].
    destruct (onended a && playing a); [| discriminate].
    inversion Hstep; subst; clear Hstep. unfold rendered. cbn [fst].
    rewrite commit_gameState, commit_dmResponse.
    destruct h as [gs dr ld ap er ca pn pc ar pd]. open_cmds. cbn in *. exact Hinv.
Qed.

Lemma reachable_state_behind_response (h : Home) :
  reachable h -> state_behind_response h.
Proof.
  induction 1 as [| e h h' effs _ IH Hstep].
  - intros _. reflexivity.
  - exact (step_state_behind_response e h h' effs IH Hstep).
Qed.

Lemma offered_start_form (h : Home) (ev : UserEvent) :
  gameState h = None -> offered h ev = offered init ev.
Proof. intros Hg. unfold offered. rewrite Hg. reflexivity. Qed.

Lemma game_over_user_step (h h' : Home) (r : DMResponse.t) (ev : UserEvent)
      (effs : list Effect) :
  gameState h <> None ->
  dmResponse h = Some r ->
  DMResponse.game_over r = true ->
  step (User ev) h = Some (h', effs) ->
  existsb is_dm_request effs = false
  /\ (is_reset ev = false -> dmResponse h' = Some r /\ gameState h' <> None)
  /\ (is_reset ev = true -> NotStarted h').
Proof.
  intros Hgs Hdr Hover Hstep. unfold step in Hstep.
  destruct (offered h ev) eqn:Hoff; [| discriminate].
  inversion Hstep; subst; clear Hstep. unfold rendered, NotStarted. cbn [fst snd].
  rewrite commit_gameState, commit_dmResponse.
  destruct h as [[g |] dr ld ap er ca pn pc [a |] pd]; cbn in Hgs, Hdr;
    try congruence; subst dr;
    destruct ev; cbn in Hoff; rewrite ?Hover in Hoff; cbn in Hoff;
    try discriminate; open_cmds; cbn;
    repeat split; try discriminate; try congruence.
Qed.

Lemma game_over_env_step (h h' : Home) (e : Event) (effs : list Effect) :
  (forall ev, e <> User ev) ->
  keeps_last_response e = true ->
  step e h = Some (h', effs) ->
  existsb is_dm_request effs = false
  /\ dmResponse h' = dmResponse h
  /\ gameState h' = gameState h.
Proof.
  intros Hnouser Hkeep Hstep.
  destruct e as [ev | i posted | i posted |]; unfold step in Hstep.
  - exfalso. exact (Hnouser ev eq_refl).
  - destruct posted as [response | err]; [discriminate |].
    destruct (nth_error (pending h) i) as [[state |] |] eqn:Hp; try discriminate.
    destruct (step_dm_rejected h i state err Hp) as (h1 & Hs & Hg & Hd & _).
    unfold step in Hs. rewrite Hp in Hs. rewrite Hs in Hstep.
    inversion Hstep; subst. auto.
  - destruct (nth_error (pending h) i) as [[state |] |] eqn:Hp; try discriminate.
    inversion Hstep; subst; clear Hstep. unfold rendered. cbn [fst snd].
    rewrite commit_gameState, commit_dmResponse.
    destruct h as [gs dr ld ap er ca pn pc [a |] pd];
      destruct posted as [v | [m | m |]]; open_cmds; cbn; auto.
  - destruct (audioRef_current h) as [a |] eqn:Ha; [| discriminate].
    destruct (onended a && playing a); [| discriminate].
    inversion Hstep; subst; clear Hstep. unfold rendered. cbn [fst snd].
    rewrite commit_gameState, commit_dmResponse.
    destruct h as [gs dr ld ap er ca pn pc ar pd]. open_cmds. cbn. auto.
Qed.

Lemma game_over_run (es : list Event) :
  forall (h h' : Home) (r : DMResponse.t) (effs : list Effect),
    gameState h <> None ->
    dmResponse h = Some r ->
    DMResponse.game_over r = true ->
    forallb keeps_last_response es = true ->
    run es h = Some (h', effs) ->
    dmResponse h' = Some r
    /\ gameState h' <> None
    /\ existsb is_dm_request effs = false.
Proof.
  induction es as [| e es IH]; intros h h' r effs Hgs Hdr Hover Hkeep Hrun.
  - cbn in Hrun. inversion Hrun; subst. auto.
  - cbn in Hkeep. apply andb_true_iff in Hkeep as [He Hrest].
    cbn [run] in Hrun.
    destruct (step e h) as [[h1 effs1] |] eqn:Hstep; [| discriminate].
    destruct (run es h1) as [[h2 effs2] |] eqn:Hrun1; [| discriminate].
    inversion Hrun; subst; clear Hrun.
    assert (H1 : existsb is_dm_request effs1 = false
                 /\ dmResponse h1 = Some r /\ gameState h1 <> None).
    { destruct e as [ev | i posted | i posted |].
      - cbn in He. apply negb_true_iff in He.
        destruct (game_over_user_step h h1 r ev effs1 Hgs Hdr Hover Hstep)
          as (Hnone & Hk & _).
        destruct (Hk He). auto.
      - destruct (game_over_env_step h h1 (DMSettled i posted) effs1) as (Hnone & Hd & Hg);
          [intros ev; discriminate | exact He | exact Hstep |].
        rewrite Hd, Hg. auto.
      - destruct (game_over_env_step h h1 (VoiceSettled i posted) effs1) as (Hnone & Hd & Hg);
          [intros ev; discriminate | exact He | exact Hstep |].
        rewrite Hd, Hg. auto.
      - destruct (game_over_env_step h h1 AudioEnded effs1) as (Hnone & Hd & Hg);
          [intros ev; discriminate | exact He | exact Hstep |].
        rewrite Hd, Hg. auto. }
    destruct H1 as (Hnone & Hdr1 & Hgs1).
    destruct (IH h1 h' r effs2 Hgs1 Hdr1 Hover Hrest Hrun1) as (Hd & Hg & Hn).
    rewrite existsb_app, Hnone, Hn. auto.
Qed.

(** What [resetGame] clears, as the view shows it after the render. *)
Lemma resetGame_clears (h : Home) :
  customAction (fst (rendered (resetGame h))) = ""
  /\ error (fst (rendered (resetGame h))) = None
  /\ playerName (fst (rendered (resetGame h))) = ""
  /\ playerClass (fst (rendered (resetGame h))) = "Rogue".
Proof.
  destruct h as [gs dr ld ap er ca pn pc [a |] pd];
    unfold rendered, commit; open_cmds; cbn; auto.
Qed.

(** C7 (as the code has it). In every store a session can reach whose
    last response has [game_over = true]: the view offers no control that
    submits an action (suggested or custom); no control of the view sends a
    DM request; over any run of events that has no reset and in which no DM
    response arrives, the response stays, no DM request is sent and the
    action controls stay away; the reset button is offered; and a reset
    goes through, sends nothing and leaves the store without game state and
    response, with the input, the error and the form cleared, where the
    view is the start form of a fresh page. A DM response can still arrive
    in such a store, for a request that was in flight before: requests are
    never cancelled. *)
Theorem C7_game_over_only_reset (h : Home) (r : DMResponse.t) :
  reachable h ->
  dmResponse h = Some r ->
  DMResponse.game_over r = true ->
  (forall ev, is_action_submission ev = true -> offered h ev = false)
  /\ (forall ev h' effs,
         step (User ev) h = Some (h', effs) ->
         existsb is_dm_request effs = false)
  /\ (forall es h' effs,
         forallb keeps_last_response es = true ->
         run es h = Some (h', effs) ->
         dmResponse h' = Some r
         /\ existsb is_dm_request effs = false
         /\ (forall ev, is_action_submission ev = true -> offered h' ev = false))
  /\ offered h ClickStartNewAdventure = true
  /\ (forall ev, is_reset ev = true ->
        exists h',
          step (User ev) h = Some (h', [])
          /\ NotStarted h'
          /\ (forall ev', offered h' ev' = offered init ev')
          /\ customAction h' = "" /\ error h' = None
          /\ playerName h' = "" /\ playerClass h' = "Rogue").
Proof.
  intros Hreach Hdr Hover.
  assert (Hgs : gameState h <> None).
  { intros Hnone. apply (reachable_state_behind_response h Hreach) in Hnone.
    congruence. }
  assert (Hblocked : forall h1, gameState h1 <> None -> dmResponse h1 = Some r ->
            forall ev, is_action_submission ev = true -> offered h1 ev = false).
  { intros h1 Hg1 Hd1 ev Hev. open_view. rewrite Hd1, Hover.
    destruct (gameState h1); [| congruence].
    destruct ev; try discriminate; reflexivity. }
  split; [exact (Hblocked h Hgs Hdr) |].
  split; [| split; [| split]].
  - intros ev h' effs Hstep.
    exact (proj1 (game_over_user_step h h' r ev effs Hgs Hdr Hover Hstep)).
  - intros es h' effs Hnoreset Hrun.
    destruct (game_over_run es h h' r effs Hgs Hdr Hover Hnoreset Hrun)
      as (Hd & Hg & He).
    repeat split; auto.
  - open_view. rewrite Hdr, Hover. destruct (gameState h); [reflexivity | congruence].
  - intros ev Hev.
    assert (Hoff : offered h ev = true).
    { open_view. rewrite Hdr, Hover.
      destruct (gameState h); [| congruence].
      destruct ev; try discriminate; reflexivity. }
    assert (Hstep : step (User ev) h = Some (rendered (resetGame h))).
    { unfold step. rewrite Hoff. destruct ev; try discriminate; reflexivity. }
    exists (fst (rendered (resetGame h))).
    assert (Heffs : snd (rendered (resetGame h)) = []) by reflexivity.
    split; [| split; [| split]].
    + rewrite Hstep. rewrite <- Heffs. now destruct (rendered (resetGame h)).
    + unfold NotStarted, rendered. cbn [fst].
      rewrite commit_gameState, commit_dmResponse. split; reflexivity.
    + intros ev'. apply offered_start_form.
      unfold rendered. cbn [fst]. rewrite commit_gameState. reflexivity.
    + exact (resetGame_clears h).
Qed.

Lemma C7_game_over_witness :
  offered (afterFirstResponse lastBreath) (ClickSuggested 0) = false
  /\ offered (afterFirstResponse lastBreath) ClickSend = false
  /\ offered (afterFirstResponse lastBreath) ClickStartNewAdventure = true
  /\ exists h',
       step (User ClickStartNewAdventure) (afterFirstResponse lastBreath)
       = Some (h', [])
       /\ NotStarted h'.
Proof.
  assert (Hreach : reachable (afterFirstResponse lastBreath)).
  { apply (reachable_step (DMSettled 0 (Resolved lastBreath)) firstRequestInFlight
             (afterFirstResponse lastBreath)
             [Send (gameClient.getVoiceNarration_request "Darkness takes you.")]).
    - apply (reachable_step (User (ClickStartAdventure "k3x9q2m7a")) init
               firstRequestInFlight
               [Send (gameClient.getDMResponse_request
                        (GameState.mk "k3x9q2m7a" "Adventurer" "Rogue" [] 20
                                      "Starting Point" "" 0) None)]).
      + exact reachable_init.
      + reflexivity.
    - reflexivity. }
  destruct (C7_game_over_only_reset (afterFirstResponse lastBreath) lastBreath
              Hreach eq_refl eq_refl)
    as (Hblocked & _ & _ & Hreset & Hback).
  split; [apply Hblocked; reflexivity |].
  split; [apply Hblocked; reflexivity |].
  split; [exact Hreset |].
  destruct (Hback ClickStartNewAdventure eq_refl) as (h' & Hstep & Hns & _).
  exists h'. split; assumption.
Defined.

(** C7 as it was stated fails in one kind of session. The player leaves an
    adventure while its DM request is in flight and starts another, which
    ends at once: the game is over. No reset follows; the response of the
    abandoned request arrives and takes the place of the one that ended the
    game, and once [loading] is cleared a suggestion can be clicked, which
    sends a DM request. *)
Lemma C7_late_response_counterexample :
  option_map fst (run abandonedThenOver init) = Some gameOverWithRequestInFlight
  /\ gameOverShown gameOverWithRequestInFlight = true
  /\ (forall ev, is_action_submission ev = true ->
                 offered gameOverWithRequestInFlight ev = false)
  /\ forallb no_reset lateResponse = true
  /\ option_map (fun r => existsb is_dm_request (snd r))
                (run lateResponse gameOverWithRequestInFlight)
     = Some true.
Proof.
  split; [vm_compute; reflexivity |].
  split; [vm_compute; reflexivity |].
  split; [| split; vm_compute; reflexivity].
  intros ev Hev. destruct ev; try discriminate; vm_compute; reflexivity.
Qed.

(** ** The claims on a failed voice request *)

(** What a failed voice request leaves behind. After the DM request of a
    suspended [getDMResponse state _] was answered by a response with a
    narration, the new game state and the response are in place and one
    voice request is in flight. When that request fails, with whatever was
    thrown, the step goes through and sends nothing, both stay in place,
    [loading] is cleared and the error hook holds the message of the
    failure. The controls that submit an action are enabled exactly when
    the response does not end the game and the [audioPlaying] flag was
    down. *)
Lemma voice_failure_after_commit (h : Home) (i : nat) (state : GameState.t)
        (response : DMResponse.t) (e : Thrown) :
  nth_error (pending h) i = Some (AwaitDM state) ->
  truthy (DMResponse.dm_narration response) = true ->
  exists h1 h2,
    step (DMSettled i (Resolved response)) h
    = Some (h1, [Send (gameClient.getVoiceNarration_request
                         (DMResponse.dm_narration response))])
    /\ gameState h1 = Some (updatedState state response)
    /\ dmResponse h1 = Some response
    /\ step (VoiceSettled (List.length (remove_nth i (pending h))) (Rejected e)) h1
       = Some (h2, [])
    /\ gameState h2 = Some (updatedState state response)
    /\ dmResponse h2 = Some response
    /\ loading h2 = false
    /\ error h2 = Some (voiceFailureMessage e)
    /\ (e <> Error "" -> voiceFailureMessage e <> "" /\ errorShown h2 = true)
    /\ awaitingPlayerAction h2
       = negb (DMResponse.game_over response) && negb (audioPlaying h)
    /\ (forall value,
          offered h2 (TypeCustomAction value)
          = negb (DMResponse.game_over response) && negb (audioPlaying h)).
Proof.
  intros Hp Hnarr.
  destruct (step_dm_resolved h i state response Hp)
    as (h1 & Hstep1 & Hgs1 & Hdr1 & _ & Hap1 & _ & _ & Hpend1).
  rewrite Hnarr in Hstep1, Hpend1.
  assert (Hv : nth_error (pending h1) (List.length (remove_nth i (pending h)))
               = Some AwaitVoice).
  { rewrite Hpend1. apply nth_error_snoc. }
  destruct (step_voice_rejected h1 _ e Hv)
    as (h2 & Hstep2 & Hgs2 & Hdr2 & Hap2 & _ & Hld2 & Herr2 & _).
  rewrite Hgs1 in Hgs2. rewrite Hdr1 in Hdr2. rewrite Hap1 in Hap2.
  exists h1, h2. repeat (split; [assumption |]).
  split; [| split].
  - intros Hne. pose proof (voiceFailureMessage_nonempty e Hne) as Hmsg.
    split; [exact Hmsg |].
    unfold errorShown. rewrite Herr2, Hld2, (truthy_nonempty _ Hmsg). reflexivity.
  - open_view. rewrite Hgs2, Hdr2, Hld2, Hap2. cbn.
    now rewrite andb_true_r.
  - intros value. open_view. rewrite Hgs2, Hdr2, Hld2, Hap2. reflexivity.
Qed.

(** C8 (the code departs from it). After a successful DM call whose voice
    request fails, the error is on display, the turn is committed and
    [loading] is cleared: that much of the claim holds, for every store.
    But the action controls are disabled by [loading || audioPlaying], and
    [resetGame] clears neither flag, although it clears every other hook
    and [skipAudio] and the [onended] handler clear both. When the player
    left the previous adventure while its narration was playing,
    [audioPlaying] is still up: after the voice failure every control that
    submits an action stays disabled, under a "Playing narration..." banner
    with nothing playing, until "Skip" is clicked. *)
Theorem C8_voice_failure_with_stale_flag (h : Home) (i : nat) (state : GameState.t)
        (response : DMResponse.t) (m : string) :
  nth_error (pending h) i = Some (AwaitDM state) ->
  truthy (DMResponse.dm_narration response) = true ->
  audioPlaying h = true ->
  exists h1 h2,
    step (DMSettled i (Resolved response)) h
    = Some (h1, [Send (gameClient.getVoiceNarration_request
                         (DMResponse.dm_narration response))])
    /\ step (VoiceSettled (List.length (remove_nth i (pending h)))
                          (Rejected (AxiosError m))) h1
       = Some (h2, [])
    /\ gameState h2 = Some (updatedState state response)
    /\ dmResponse h2 = Some response
    /\ loading h2 = false
    /\ error h2 = Some ("Failed to get voice narration: " ++ m)
    /\ errorShown h2 = true
    /\ audioPlaying h2 = true
    /\ awaitingPlayerAction h2 = false
    /\ (forall ev, is_action_submission ev = true -> offered h2 ev = false)
    /\ offered h2 ClickSkip = true.
Proof.
  intros Hp Hnarr Hap.
  destruct (step_dm_resolved h i state response Hp)
    as (h1 & Hs1 & Hgs1 & Hdr1 & _ & Hap1 & _ & _ & Hpend1).
  rewrite Hnarr in Hs1, Hpend1.
  assert (Hv : nth_error (pending h1) (List.length (remove_nth i (pending h)))
               = Some AwaitVoice).
  { rewrite Hpend1. apply nth_error_snoc. }
  destruct (step_voice_rejected h1 _ (AxiosError m) Hv)
    as (h2 & Hs2 & Hgs2 & Hdr2 & Hap2 & _ & Hld2 & Herr2 & _).
  rewrite Hgs1 in Hgs2. rewrite Hdr1 in Hdr2. rewrite Hap1, Hap in Hap2.
  exists h1, h2.
  split; [exact Hs1 |]. split; [exact Hs2 |]. split; [exact Hgs2 |].
  split; [exact Hdr2 |]. split; [exact Hld2 |]. split; [exact Herr2 |].
  split; [unfold errorShown; rewrite Herr2, Hld2; reflexivity |].
  split; [exact Hap2 |].
  assert (Hblocked : forall ev, is_action_submission ev = true -> offered h2 ev = false).
  { intros ev Hev. unfold offered, actionsShown. rewrite Hgs2, Hdr2, Hld2, Hap2.
    destruct ev; try discriminate; cbn; rewrite ?orb_true_r, ?andb_false_r;
      reflexivity. }
  split; [exact (Hblocked (ClickSuggested 0) eq_refl) |].
  split; [exact Hblocked |].
  unfold offered. rewrite Hgs2. exact Hap2.
Qed.

Lemma C8_voice_failure_witness :
  option_map fst (run (firstn 5 leftDuringNarration) init)
  = Some secondAdventureInFlight
  /\ exists h1 h2,
       step (DMSettled 0 (Resolved goblinFight)) secondAdventureInFlight
       = Some (h1, [Send (gameClient.getVoiceNarration_request
                            "The goblin lunges at you with surprising speed...")])
       /\ step (VoiceSettled 0 (Rejected (AxiosError "timeout of 60000ms exceeded"))) h1
          = Some (h2, [])
       /\ dmResponse h2 = Some goblinFight
       /\ loading h2 = false
       /\ errorShown h2 = true
       /\ awaitingPlayerAction h2 = false
       /\ offered h2 ClickSkip = true.
Proof.
  split; [vm_compute; reflexivity |].
  destruct (C8_voice_failure_with_stale_flag secondAdventureInFlight 0
              (GameState.mk "p0w4z8c1d" "Adventurer" "Rogue" [] 20
                            "Starting Point" "" 0)
              goblinFight "timeout of 60000ms exceeded")
    as (h1 & h2 & Hs1 & Hs2 & _ & Hdr & Hld & _ & Hban & _ & Hact & _ & Hskip);
    [vm_compute; reflexivity | vm_compute; reflexivity | vm_compute; reflexivity |].
  exists h1, h2. repeat (split; [assumption |]). exact Hskip.
Defined.

(** The whole session from a fresh page: the player leaves an adventure
    while its narration plays and carries the raised flag into the next
    one; the voice failure there clears [loading] and shows its banner, and
    the action controls wait for "Skip". *)
Example voice_failure_with_stale_audio_flag :
  option_map
    (fun r => (loading (fst r), audioPlaying (fst r), errorShown (fst r),
               awaitingPlayerAction (fst r), offered (fst r) ClickSkip))
    (run leftDuringNarration init)
  = Some (false, true, true, false, true).
Proof. reflexivity. Qed.

(** ** The claim on an action without a game *)

(** C10. With no game state, [handleAction] returns at once: the store is
    the one it was called on and nothing is sent. Whenever [handleAction]
    does send a DM request, the state in it is the game state of the store;
    and the start form, which is the view of a store without game state,
    holds no control that submits an action. *)
Theorem C10_action_without_game_is_noop (h : Home) (action : string) :
  (gameState h = None -> handleAction action h = (h, []))
  /\ (forall body,
         In (Send (gameClient.PostDM body)) (snd (handleAction action h)) ->
         gameState h = Some (DMRequest.state body))
  /\ (gameState h = None ->
      forall ev, is_action_submission ev = true -> offered h ev = false).
Proof.
  split; [| split].
  - intros Hg. unfold handleAction. rewrite Hg. reflexivity.
  - intros body Hin. unfold handleAction in Hin.
    destruct (gameState h) as [g |] eqn:Hg.
    + open_cmds. cbn in Hin. destruct Hin as [Heq | []].
      inversion Heq. reflexivity.
    + cbn in Hin. contradiction.
  - intros Hg ev Hev. unfold offered. rewrite Hg.
    destruct ev; try discriminate; reflexivity.
Qed.

Lemma C10_action_without_game_witness :
  handleAction "Attack goblin" init = (init, [])
  /\ offered init ClickSend = false.
Proof.
  destruct (C10_action_without_game_is_noop init "Attack goblin")
    as (Hnoop & _ & Hview).
  split.
  - apply Hnoop. reflexivity.
  - apply Hview; reflexivity.
Defined.

(** * Further properties of the code *)

(** ** The update of the game state *)

Lemma filter_includes_nil (xs : list string) :
  filter (fun item => negb (includes [] item)) xs = xs.
Proof. apply filter_all. reflexivity. Qed.

(** X1. A response whose delta is empty (no health change, nothing added or
    removed, empty location and scene) only counts the turn, provided the
    health is not below zero. *)
Theorem empty_delta_only_counts_the_turn (state : GameState.t) (response : DMResponse.t) :
  DMResponse.state_updates response = StateUpdates.mk 0 [] [] "" "" ->
  0 <= GameState.hp state ->
  updatedState state response
  = GameState.mk (GameState.campaign_seed state) (GameState.player_name state)
                 (GameState.player_class state) (GameState.inventory state)
                 (GameState.hp state) (GameState.location state)
                 (GameState.last_scene state) (GameState.turn_count state + 1).
Proof.
  intros Hu Hhp. unfold updatedState. rewrite Hu. cbn.
  rewrite filter_includes_nil, app_nil_r, Z.add_0_r.
  unfold Math_max. rewrite Z.max_r by exact Hhp. reflexivity.
Qed.

Lemma empty_delta_witness :
  updatedState fullHealth silentTurn
  = GameState.mk "k3x9q2m7a" "Aragorn" "Warrior" ["Sword"; "Torch"] 20
                 "Forest" "Entered the dark forest" 6.
Proof.
  apply (empty_delta_only_counts_the_turn fullHealth silentTurn).
  - reflexivity.
  - cbn. lia.
Defined.

Lemma count_occ_filter_includes (remove held : list string) (item : string) :
  count_occ string_dec
            (filter (fun i => negb (includes remove i)) held) item
  = if includes remove item then 0%nat else count_occ string_dec held item.
Proof.
  induction held as [| x tl IH]; cbn.
  - now destruct (includes remove item).
  - destruct (includes remove x) eqn:Hx; cbn.
    + rewrite IH. destruct (string_dec x item) as [-> | Hne].
      * now rewrite Hx.
      * reflexivity.
    + rewrite IH. destruct (string_dec x item) as [-> | Hne].
      * now rewrite Hx.
      * reflexivity.
Qed.

(** X2. The inventory is a list with repetitions, not a set: after the
    update an item occurs as often as it is added, plus as often as it was
    held unless it is named for removal, in which case every held copy goes.
    The inventory never grows by more than the additions. *)
Theorem inventory_counts (state : GameState.t) (response : DMResponse.t)
        (item : string) :
  let u := DMResponse.state_updates response in
  let result := GameState.inventory (updatedState state response) in
  count_occ string_dec result item
  = ((if includes (StateUpdates.inventory_remove u) item
      then 0
      else count_occ string_dec (GameState.inventory state) item)
     + count_occ string_dec (StateUpdates.inventory_add u) item)%nat
  /\ (List.length result
      <= List.length (GameState.inventory state)
         + List.length (StateUpdates.inventory_add u))%nat.
Proof.
  cbn. split.
  - rewrite count_occ_app, count_occ_filter_includes. reflexivity.
  - rewrite length_app. apply Nat.add_le_mono_r. apply filter_length_le.
Qed.

(** X3. Health moves the way the delta points and stops at zero: from a
    health not below zero, a delta that is not positive never raises it, a
    delta that is not negative never lowers it, and the result is zero
    exactly when the delta takes all the health there is. *)
Theorem hp_follows_delta (state : GameState.t) (response : DMResponse.t) :
  0 <= GameState.hp state ->
  let delta := StateUpdates.hp_delta (DMResponse.state_updates response) in
  let hp' := GameState.hp (updatedState state response) in
  (delta <= 0 -> hp' <= GameState.hp state)
  /\ (0 <= delta -> GameState.hp state <= hp')
  /\ (hp' = 0 <-> GameState.hp state + delta <= 0).
Proof.
  intros Hhp delta hp'. subst hp'. rewrite updatedState_hp. fold delta. lia.
Qed.

Lemma hp_follows_delta_witness :
  GameState.hp (updatedState fullHealth goblinFight) <= 20
  /\ 20 <= GameState.hp (updatedState fullHealth healFive)
  /\ GameState.hp (updatedState fullHealth lastBreath) = 0.
Proof.
  assert (Hhp : 0 <= GameState.hp fullHealth) by (cbn; lia).
  destruct (hp_follows_delta fullHealth goblinFight Hhp) as (Hdown & _ & _).
  destruct (hp_follows_delta fullHealth healFive Hhp) as (_ & Hup & _).
  destruct (hp_follows_delta fullHealth lastBreath Hhp) as (_ & _ & Hzero).
  split; [apply Hdown; cbn; lia |].
  split; [apply Hup; cbn; lia |].
  apply Hzero. cbn. lia.
Defined.

(** ** The client *)

(** X4. Failures, from the request to the banner. The three operations of
    the client never let an axios error out: it comes out as an [Error]
    that names the operation before the axios message, while anything else
    is thrown on as it is and the data of a response comes back unchanged.
    So the message the page keeps for a failed DM call is "Failed to get DM
    response: " followed by the axios message, or the own message of any
    other [Error], or "Failed to get DM response" for a thrown value that
    is no [Error]; for a failed voice call it is "Failed to get voice
    narration: " followed by the axios message, the own message, or "Failed
    to generate voice". *)
Theorem failure_messages :
  (forall e,
      dmFailureMessage e
      = match e with
        | AxiosError m => "Failed to get DM response: " ++ m
        | Error m => m
        | NonError => "Failed to get DM response"
        end)
  /\ (forall e,
         voiceFailureMessage e
         = match e with
           | AxiosError m => "Failed to get voice narration: " ++ m
           | Error m => m
           | NonError => "Failed to generate voice"
           end)
  /\ (forall posted, no_axios_error (gameClient.getDMResponse posted) = true)
  /\ (forall posted, no_axios_error (gameClient.getVoiceNarration posted) = true)
  /\ (forall (A : Type) (got : Outcome A),
         no_axios_error (gameClient.getGameStart got) = true)
  /\ (forall (A : Type) (got : Outcome A),
         gameClient.getGameStart got
         = match got with
           | Rejected (AxiosError m) =>
               Rejected (Error ("Failed to get game start: " ++ m))
           | _ => got
           end)
  /\ (forall posted data,
         gameClient.getDMResponse posted = Resolved data <-> posted = Resolved data)
  /\ (forall posted data,
         gameClient.getVoiceNarration posted = Resolved data
         <-> posted = Resolved data).
Proof.
  split; [intros [m | m |]; reflexivity |].
  split; [intros [m | m |]; reflexivity |].
  split; [intros [data | [m | m |]]; reflexivity |].
  split; [intros [data | [m | m |]]; reflexivity |].
  split; [intros A [data | [m | m |]]; reflexivity |].
  split; [intros A [data | [m | m |]]; reflexivity |].
  split.
  - intros [d | [m | m |]] data; cbn; split; intros H; try discriminate; exact H.
  - intros [d | [m | m |]] data; cbn; split; intros H; try discriminate; exact H.
Qed.

(** ** Invariants of a session *)

Lemma commit_playerClass (h : Home) : playerClass (commit h) = playerClass h.
Proof. unfold commit. destruct (gameState h) eqn:G, (audioRef_current h); cbn; auto. Qed.

Lemma commit_playerName (h : Home) : playerName (commit h) = playerName h.
Proof. unfold commit. destruct (gameState h) eqn:G, (audioRef_current h); cbn; auto. Qed.

(** Soundness of a store looks at four of its fields only. *)
Lemma sound_store_ext (h h' : Home) :
  playerClass h' = playerClass h ->
  gameState h' = gameState h ->
  dmResponse h' = dmResponse h ->
  pending h' = pending h ->
  sound_store h -> sound_store h'.
Proof.
  unfold sound_store, state_behind_response.
  intros -> -> -> ->. auto.
Qed.

Lemma sound_store_commit (h : Home) : sound_store h -> sound_store (commit h).
Proof.
  apply sound_store_ext;
    auto using commit_playerClass, commit_gameState, commit_dmResponse, commit_pending.
Qed.

Lemma logical_or_nonempty (a b : string) : b <> "" -> logical_or a b <> "".
Proof. destruct a; cbn; [auto | discriminate]. Qed.

Lemma updatedState_sound (state : GameState.t) (response : DMResponse.t) :
  sound_state state ->
  sound_state (updatedState state response)
  /\ 1 <= GameState.turn_count (updatedState state response).
Proof.
  intros (Hname & Hclass & Hhp & Hturn). unfold sound_state.
  rewrite updatedState_hp. cbn.
  split; [split; [exact Hname | split; [exact Hclass | lia]] | lia].
Qed.

Lemma Forall_remove_nth {A : Type} (P : A -> Prop) (i : nat) (xs : list A) :
  Forall P xs -> Forall P (remove_nth i xs).
Proof.
  intros H. revert i. induction H as [| x tl Hx Htl IH]; intros [| i]; cbn; auto.
Qed.

Lemma handleAction_sound (action : string) (h : Home) :
  sound_store h -> sound_store (fst (handleAction action h)).
Proof.
  intros Hs. unfold handleAction.
  destruct (gameState h) as [g |] eqn:Hg; [| exact Hs].
  destruct Hs as (Hclass & Hbehind & Hstate & Hpend & Hturn).
  unfold sound_store, state_behind_response in *. open_cmds. cbn.
  rewrite Hg in *.
  split; [| split; [| split; [| split]]]; auto.
  apply Forall_app. split; [exact Hpend |].
  constructor; [| constructor]. cbn. auto.
Qed.

Lemma resetGame_sound (h : Home) :
  sound_store h -> sound_store (fst (resetGame h)).
Proof.
  intros (_ & _ & _ & Hpend & _).
  unfold sound_store, state_behind_response. open_cmds. cbn.
  split; [| split; [| split; [| split]]]; auto; discriminate.
Qed.

Lemma handle_sound (ev : UserEvent) (h : Home) :
  offered h ev = true ->
  sound_store h -> sound_store (fst (handle ev h)).
Proof.
  intros Hoff Hs.
  destruct ev; cbn [handle].
  - (* TypeCharacterName *) revert Hs. apply sound_store_ext; reflexivity.
  - (* SelectCharacterClass *)
    unfold offered in Hoff. destruct (gameState h) eqn:Hg; [discriminate |].
    apply includes_In in Hoff.
    destruct Hs as (_ & Hbehind & Hstate & Hpend & Hturn).
    unfold sound_store, state_behind_response in *. open_cmds. cbn.
    split; [| split; [| split; [| split]]]; auto.
  - (* ClickStartAdventure *)
    unfold offered in Hoff. destruct (gameState h) eqn:Hg; [discriminate |].
    destruct Hs as (Hclass & Hbehind & Hstate & Hpend & Hturn).
    pose proof (Hbehind Hg) as Hdr.
    assert (Hnew : sound_state
                     (GameState.mk seed (logical_or (playerName h) "Adventurer")
                                   (playerClass h) [] 20 "Starting Point" "" 0)).
    { unfold sound_state. cbn.
      split; [apply logical_or_nonempty; discriminate |].
      split; [exact Hclass |]. lia. }
    unfold sound_store, state_behind_response in *.
    open_cmds. cbn. rewrite Hdr.
    split; [| split; [| split; [| split]]]; auto.
    + intros g Heq. inversion Heq; subst. exact Hnew.
    + apply Forall_app. split; [exact Hpend |].
      constructor; [exact Hnew | constructor].
    + intros g _ Hc. congruence.
  - (* ClickSkip *)
    revert Hs. apply sound_store_ext;
      unfold skipAudio; open_cmds; destruct (audioRef_current h); reflexivity.
  - (* ClickSuggested *)
    destruct (dmResponse h) as [r |]; [| exact Hs].
    destruct (nth_error (suggestedList r) idx); [| exact Hs].
    now apply handleAction_sound.
  - (* TypeCustomAction *) revert Hs. apply sound_store_ext; reflexivity.
  - (* PressEnter *)
    destruct (truthy (customAction h) && negb (loading h) && negb (audioPlaying h));
      [now apply handleAction_sound | exact Hs].
  - (* ClickSend *)
    destruct (truthy (customAction h)); [now apply handleAction_sound | exact Hs].
  - (* ClickStartNewAdventure *) now apply resetGame_sound.
  - (* ClickDismiss *) revert Hs. apply sound_store_ext; reflexivity.
  - (* ClickNewGame *) now apply resetGame_sound.
Qed.

Lemma step_sound (e : Event) (h h' : Home) (effs : list Effect) :
  sound_store h -> step e h = Some (h', effs) -> sound_store h'.
Proof.
  intros Hs Hstep.
  destruct e as [ev | i posted | i posted |]; unfold step in Hstep.
  - destruct (offered h ev) eqn:Hoff; [| discriminate].
    inversion Hstep; subst; clear Hstep. unfold rendered. cbn [fst].
    apply sound_store_commit. now apply handle_sound.
  - destruct (nth_error (pending h) i) as [[state |] |] eqn:Hp; try discriminate.
    inversion Hstep; subst; clear Hstep. unfold rendered. cbn [fst].
    apply sound_store_commit.
    destruct Hs as (Hclass & Hbehind & Hstate & Hpend & Hturn).
    assert (Hsound : sound_state state).
    { rewrite Forall_forall in Hpend.
      exact (Hpend (AwaitDM state) (nth_error_In _ _ Hp)). }
    pose proof (Forall_remove_nth sound_pending i (pending h) Hpend) as Hrem.
    unfold sound_store, state_behind_response in *.
    destruct posted as [response | err].
    + destruct (updatedState_sound state response Hsound) as (Hnext & Hone).
      open_cmds. cbn.
      destruct (truthy (DMResponse.dm_narration response)); cbn;
        (split; [| split; [| split; [| split]]]); auto; try discriminate;
        try (intros g Heq; inversion Heq; subst; auto; fail);
        try (intros g Heq _; inversion Heq; subst; auto; fail);
        try (apply Forall_app; split; [exact Hrem | constructor; [exact I | constructor]]);
        try (rewrite app_nil_r; exact Hrem).
    + rewrite getDMResponse_resume_rejected. open_cmds. cbn.
      split; [| split; [| split; [| split]]]; auto.
  - destruct (nth_error (pending h) i) as [[state |] |] eqn:Hp; try discriminate.
    inversion Hstep; subst; clear Hstep. unfold rendered. cbn [fst].
    apply sound_store_commit.
    destruct Hs as (Hclass & Hbehind & Hstate & Hpend & Hturn).
    pose proof (Forall_remove_nth sound_pending i (pending h) Hpend) as Hrem.
    unfold sound_store, state_behind_response in *.
    destruct posted as [v | err].
    + open_cmds. cbn. destruct (audioRef_current h); cbn;
        (split; [| split; [| split; [| split]]]); auto.
    + rewrite playNarration_resume_rejected. open_cmds. cbn.
      split; [| split; [| split; [| split]]]; auto.
  - destruct (audioRef_current h) as [a |] eqn:Ha; [| discriminate].
    destruct (onended a && playing a); [| discriminate].
    inversion Hstep; subst; clear Hstep. unfold rendered. cbn [fst].
    apply sound_store_commit. revert Hs. apply sound_store_ext; reflexivity.
Qed.

(** X5. In every store a session can reach, the game state on display and
    every game state travelling with a request in flight has a non-empty
    player name, one of the four classes of the form, a health not below
    zero and a turn count not below zero; and while a response is on
    display the turn count is at least one. *)
Theorem reachable_stores_are_sound (h : Home) :
  reachable h ->
  (forall g, gameState h = Some g -> sound_state g)
  /\ (forall state, In (AwaitDM state) (pending h) -> sound_state state)
  /\ (forall g r, gameState h = Some g -> dmResponse h = Some r ->
                  1 <= GameState.turn_count g)
  /\ In (playerClass h) classOptions.
Proof.
  intros Hreach.
  assert (Hs : sound_store h).
  { induction Hreach as [| e h h' effs _ IH Hstep].
    - unfold sound_store, state_behind_response. cbn.
      split; [| split; [| split; [| split]]]; auto; discriminate.
    - exact (step_sound e h h' effs IH Hstep). }
  destruct Hs as (Hclass & _ & Hstate & Hpend & Hturn).
  split; [exact Hstate |]. split; [| split; [| exact Hclass]].
  - intros state Hin. rewrite Forall_forall in Hpend. exact (Hpend _ Hin).
  - intros g r Hg Hr. apply (Hturn g Hg). congruence.
Qed.

Lemma pending_single (pd : list Pending) (i : nat) (p : Pending) :
  (List.length pd <= 1)%nat -> nth_error pd i = Some p ->
  pd = [p] /\ i = 0%nat.
Proof.
  destruct pd as [| q [| q' tl]]; cbn; intros Hlen Hnth.
  - destruct i; discriminate.
  - destruct i as [| i]; cbn in Hnth.
    + inversion Hnth. auto.
    + destruct i; discriminate.
  - lia.
Qed.

Lemma idle_nothing_pending (pd : list Pending) (ld ap : bool) :
  (pd <> [] -> ld = true /\ ap = false) ->
  ld = false \/ ap = true -> pd = [].
Proof.
  intros Hbusy Hidle. destruct pd as [| p tl]; [reflexivity |].
  destruct Hbusy as [Hl Ha]; [discriminate |].
  destruct Hidle; congruence.
Qed.

Lemma handle_one_at_a_time (ev : UserEvent) (h : Home) :
  is_reset ev = false ->
  offered h ev = true ->
  one_at_a_time h -> one_at_a_time (commit (fst (handle ev h))).
Proof.
  intros Hnr Hoff (Hform & Hmount & Hlen & Hbusy & Hplay).
  destruct h as [gs dr ld ap er ca pn pc ar pd].
  unfold one_at_a_time, offered, actionsShown, gameOverShown, errorShown in *.
  cbn in *.
  destruct gs as [g |].
  - destruct ar as [a |]; [| exfalso; apply Hmount; [discriminate | reflexivity]].
    clear Hform Hmount.
    destruct ev; try discriminate; cbn in Hoff.
    + (* ClickSkip *)
      subst ap. assert (pd = []) by (eapply idle_nothing_pending; eauto). subst pd.
      unfold commit. open_cmds. finish_one_at_a_time.
    + (* ClickSuggested *)
      destruct dr as [r |]; [| discriminate].
      apply andb_true_iff in Hoff as [Hoff Hidle].
      apply negb_true_iff, orb_false_iff in Hidle as [-> ->].
      assert (pd = []) by (eapply idle_nothing_pending; eauto). subst pd.
      unfold commit; open_cmds; cbn.
      destruct (nth_error (suggestedList r) idx); finish_one_at_a_time.
    + (* TypeCustomAction *)
      unfold commit. open_cmds. finish_one_at_a_time.
    + (* PressEnter *)
      destruct dr as [r |]; [| discriminate].
      apply andb_true_iff in Hoff as [Hoff Hidle].
      apply negb_true_iff, orb_false_iff in Hidle as [-> ->].
      assert (pd = []) by (eapply idle_nothing_pending; eauto). subst pd.
      unfold commit; open_cmds; cbn.
      destruct (truthy ca); finish_one_at_a_time.
    + (* ClickSend *)
      destruct dr as [r |]; [| discriminate].
      apply andb_true_iff in Hoff as [Hoff Hidle].
      apply negb_true_iff, orb_false_iff in Hidle as [Hidle ->].
      apply orb_false_iff in Hidle as [Hca ->].
      assert (pd = []) by (eapply idle_nothing_pending; eauto). subst pd.
      unfold commit; open_cmds; cbn.
      destruct (truthy ca); finish_one_at_a_time.
    + (* ClickDismiss *)
      unfold commit. open_cmds. finish_one_at_a_time.
  - destruct Hform as (-> & -> & ->); [reflexivity |].
    destruct ev; try discriminate; unfold commit; open_cmds;
      finish_one_at_a_time.
Qed.

Lemma step_one_at_a_time (e : Event) (h h' : Home) (effs : list Effect) :
  no_reset e = true ->
  one_at_a_time h -> step e h = Some (h', effs) -> one_at_a_time h'.
Proof.
  intros Hnr Hinv Hstep.
  destruct e as [ev | i posted | i posted |]; unfold step in Hstep.
  - destruct (offered h ev) eqn:Hoff; [| discriminate].
    inversion Hstep; subst; clear Hstep. unfold rendered. cbn [fst].
    cbn in Hnr. apply negb_true_iff in Hnr.
    now apply handle_one_at_a_time.
  - destruct (nth_error (pending h) i) as [[state |] |] eqn:Hp; try discriminate.
    inversion Hstep; subst; clear Hstep. unfold rendered. cbn [fst].
    destruct Hinv as (Hform & Hmount & Hlen & Hbusy & Hplay).
    destruct (pending_single _ _ _ Hlen Hp) as [Hpd ->].
    destruct h as [gs dr ld ap er ca pn pc ar pd].
    unfold one_at_a_time in *. cbn in *. subst pd.
    destruct Hbusy as [-> ->]; [discriminate |].
    destruct gs as [g |]; [| destruct Hform as (Hc & _); [reflexivity | discriminate]].
    destruct ar as [a |]; [| exfalso; apply Hmount; [discriminate | reflexivity]].
    destruct posted as [response | err].
    + unfold commit. open_cmds. cbn.
      destruct (truthy (DMResponse.dm_narration response)); finish_one_at_a_time.
    + rewrite getDMResponse_resume_rejected.
      unfold commit. open_cmds. finish_one_at_a_time.
  - destruct (nth_error (pending h) i) as [[state |] |] eqn:Hp; try discriminate.
    inversion Hstep; subst; clear Hstep. unfold rendered. cbn [fst].
    destruct Hinv as (Hform & Hmount & Hlen & Hbusy & Hplay).
    destruct (pending_single _ _ _ Hlen Hp) as [Hpd ->].
    destruct h as [gs dr ld ap er ca pn pc ar pd].
    unfold one_at_a_time in *. cbn in *. subst pd.
    destruct Hbusy as [-> ->]; [discriminate |].
    destruct gs as [g |]; [| destruct Hform as (Hc & _); [reflexivity | discriminate]].
    destruct ar as [a |]; [| exfalso; apply Hmount; [discriminate | reflexivity]].
    destruct posted as [v | err].
    + unfold commit. open_cmds. finish_one_at_a_time.
    + rewrite playNarration_resume_rejected.
      unfold commit. open_cmds. finish_one_at_a_time.
  - destruct (audioRef_current h) as [a |] eqn:Ha; [| discriminate].
    destruct (onended a && playing a) eqn:Hon; [| discriminate].
    inversion Hstep; subst; clear Hstep. unfold rendered. cbn [fst].
    apply andb_true_iff in Hon as [_ Hpl].
    destruct Hinv as (Hform & Hmount & Hlen & Hbusy & Hplay).
    destruct h as [gs dr ld ap er ca pn pc ar pd].
    unfold one_at_a_time in *. cbn in *. subst ar.
    pose proof (Hplay a eq_refl Hpl) as ->.
    assert (pd = []) by (eapply idle_nothing_pending; eauto). subst pd.
    destruct gs as [g |]; [| destruct Hform as (_ & _ & Hc); [reflexivity | discriminate]].
    unfold commit. open_cmds. finish_one_at_a_time.
Qed.

Lemma run_one_at_a_time (es : list Event) :
  forall (h h' : Home) (effs : list Effect),
    forallb no_reset es = true ->
    one_at_a_time h -> run es h = Some (h', effs) -> one_at_a_time h'.
Proof.
  induction es as [| e es IH]; intros h h' effs Hnr Hinv Hrun.
  - cbn in Hrun. inversion Hrun; subst. exact Hinv.
  - cbn in Hnr. apply andb_true_iff in Hnr as [He Hrest].
    cbn [run] in Hrun.
    destruct (step e h) as [[h1 effs1] |] eqn:Hstep; [| discriminate].
    destruct (run es h1) as [[h2 effs2] |] eqn:Hrun1; [| discriminate].
    inversion Hrun; subst; clear Hrun.
    apply (IH h1 h' effs2 Hrest); [| exact Hrun1].
    exact (step_one_at_a_time e h h1 effs1 He Hinv Hstep).
Qed.

Lemma init_one_at_a_time : one_at_a_time init.
Proof.
  unfold one_at_a_time. cbn. repeat split; auto; try discriminate; congruence.
Qed.

(** X6. In a session without reset at most one request is in flight at
    any time. While one is in flight [loading] is up, no narration is
    flagged as playing, and the only controls the view offers are the
    reset buttons: no second request can be sent on top of it. *)
Theorem one_request_at_a_time (es : list Event) (h : Home) (effs : list Effect) :
  forallb no_reset es = true ->
  run es init = Some (h, effs) ->
  (List.length (pending h) <= 1)%nat
  /\ (pending h <> [] ->
      loading h = true
      /\ audioPlaying h = false
      /\ (forall ev, offered h ev = true -> is_reset ev = true)).
Proof.
  intros Hnr Hrun.
  destruct (run_one_at_a_time es init h effs Hnr init_one_at_a_time Hrun)
    as (Hform & Hmount & Hlen & Hbusy & Hplay).
  split; [exact Hlen |].
  intros Hpend. destruct (Hbusy Hpend) as [Hld Hap].
  split; [exact Hld |]. split; [exact Hap |].
  intros ev Hoff. unfold offered in Hoff.
  destruct (gameState h) eqn:Hg.
  - rewrite Hld, Hap in Hoff. unfold errorShown in Hoff. rewrite Hld in Hoff.
    destruct ev; try discriminate; try reflexivity; cbn in Hoff;
      rewrite ?andb_false_r in Hoff; try discriminate.
    + destruct (actionsShown h); destruct (truthy (customAction h)); discriminate.
    + destruct (error h); [rewrite andb_false_r in Hoff |]; discriminate.
  - destruct (Hform eq_refl) as (Hnil & _). contradiction.
Qed.

(** ** The steps of a turn, store by store *)

Lemma remove_nth_snoc {A : Type} (xs : list A) (x : A) :
  remove_nth (List.length xs) (xs ++ [x])%list = xs.
Proof. induction xs as [| y ys IH]; cbn; [reflexivity | now rewrite IH]. Qed.

Lemma suggestedList_bound (r : DMResponse.t) (idx : nat) (action : string) :
  nth_error (suggestedList r) idx = Some action -> (idx <? 3)%nat = true.
Proof.
  unfold suggestedList. destruct (DMResponse.suggested_actions r) as [[a0 a1] a2].
  destruct idx as [| [| [| idx]]]; cbn; try reflexivity.
  destruct idx; discriminate.
Qed.

Lemma rendered_handleAction (h : Home) (g : GameState.t) (action : string) :
  gameState h = Some g ->
  rendered (handleAction action h)
  = (mkHome (Some g) (dmResponse h) true (audioPlaying h) None ""
            (playerName h) (playerClass h) (mounted h)
            (pending h ++ [AwaitDM g]),
     [Send (gameClient.getDMResponse_request g (Some action))]).
Proof.
  intros Hg. destruct h as [gs dr ld ap er ca pn pc ar pd]. cbn in Hg. subst gs.
  unfold rendered, commit, handleAction, mounted. open_cmds. cbn.
  destruct ar; reflexivity.
Qed.

Lemma step_dm_resolved_store (h : Home) (i : nat) (state : GameState.t)
      (response : DMResponse.t) :
  nth_error (pending h) i = Some (AwaitDM state) ->
  step (DMSettled i (Resolved response)) h
  = Some (mkHome (Some (updatedState state response)) (Some response)
                 (loading h) (audioPlaying h) (error h) (customAction h)
                 (playerName h) (playerClass h) (mounted h)
                 (remove_nth i (pending h)
                  ++ if truthy (DMResponse.dm_narration response)
                     then [AwaitVoice] else []),
          if truthy (DMResponse.dm_narration response)
          then [Send (gameClient.getVoiceNarration_request
                        (DMResponse.dm_narration response))]
          else []).
Proof.
  intros Hp. unfold step. rewrite Hp.
  destruct h as [gs dr ld ap er ca pn pc ar pd].
  unfold rendered, commit, mounted. open_cmds. cbn.
  destruct (truthy (DMResponse.dm_narration response)); destruct ar; cbn;
    rewrite ?app_nil_r; reflexivity.
Qed.

Lemma step_voice_resolved_store (h : Home) (i : nat) (v : VoiceResponse.t)
      (g : GameState.t) (a : Audio) :
  nth_error (pending h) i = Some AwaitVoice ->
  gameState h = Some g ->
  audioRef_current h = Some a ->
  step (VoiceSettled i (Resolved v)) h
  = Some (mkHome (Some g) (dmResponse h) (loading h) true (error h)
                 (customAction h) (playerName h) (playerClass h)
                 (Some (mkAudio ("data:audio/mp3;base64,"
                                 ++ VoiceResponse.audio_base64 v) true true))
                 (remove_nth i (pending h)),
          [AudioPlay]).
Proof.
  intros Hp Hg Ha. unfold step. rewrite Hp.
  destruct h as [gs dr ld ap er ca pn pc ar pd]. cbn in Hg, Ha. subst gs ar.
  unfold rendered, commit. open_cmds. cbn. reflexivity.
Qed.

Lemma step_audio_ended_store (h : Home) (g : GameState.t) (a : Audio) :
  gameState h = Some g ->
  audioRef_current h = Some a ->
  onended a = true -> playing a = true ->
  step AudioEnded h
  = Some (mkHome (Some g) (dmResponse h) false false (error h)
                 (customAction h) (playerName h) (playerClass h)
                 (Some (mkAudio (src a) true false)) (pending h),
          []).
Proof.
  intros Hg Ha Hon Hpl. unfold step. rewrite Ha, Hon, Hpl. cbn [andb].
  destruct h as [gs dr ld ap er ca pn pc ar pd]. cbn in Hg, Ha. subst gs ar.
  unfold rendered, commit. open_cmds. cbn. reflexivity.
Qed.

Lemma step_skip_store (h : Home) (g : GameState.t) (a : Audio) :
  gameState h = Some g ->
  audioRef_current h = Some a ->
  audioPlaying h = true ->
  step (User ClickSkip) h
  = Some (mkHome (Some g) (dmResponse h) false false (error h)
                 (customAction h) (playerName h) (playerClass h)
                 (Some (mkAudio (src a) (onended a) false)) (pending h),
          [AudioPause]).
Proof.
  intros Hg Ha Hap. unfold step, offered. rewrite Hg, Hap.
  destruct h as [gs dr ld ap er ca pn pc ar pd]. cbn in Hg, Ha. subst gs ar.
  unfold rendered, commit. open_cmds. cbn. reflexivity.
Qed.

(** X7. Whenever the narration is flagged as playing on the game screen,
    "Skip" is offered and goes through: it pauses the element, takes down
    [audioPlaying] and [loading], and leaves the game state, the response
    and the requests in flight alone. If the element really plays, the
    store after "Skip" is the store after the natural end of the narration;
    the two differ in the pause only. Either way the action controls are
    enabled exactly when the response on display does not end the game. *)
Theorem skip_is_the_end_of_the_narration (h : Home) (g : GameState.t) (a : Audio) :
  gameState h = Some g ->
  audioRef_current h = Some a ->
  audioPlaying h = true ->
  exists h',
    step (User ClickSkip) h = Some (h', [AudioPause])
    /\ loading h' = false
    /\ audioPlaying h' = false
    /\ gameState h' = Some g
    /\ dmResponse h' = dmResponse h
    /\ pending h' = pending h
    /\ awaitingPlayerAction h' = actionsShown h
    /\ (onended a = true -> playing a = true ->
        step AudioEnded h = Some (h', [])).
Proof.
  intros Hg Ha Hap.
  eexists. split; [exact (step_skip_store h g a Hg Ha Hap) |].
  do 5 (split; [reflexivity |]).
  split.
  - unfold awaitingPlayerAction, offered, actionsShown. cbn.
    now rewrite !andb_true_r.
  - intros Hon Hpl. rewrite (step_audio_ended_store h g a Hg Ha Hon Hpl).
    rewrite Hon. reflexivity.
Qed.

Lemma mounted_some (h : Home) : exists a, mounted h = Some a.
Proof. unfold mounted. destruct (audioRef_current h); eauto. Qed.

Lemma awaitingPlayerAction_flags (h : Home) (g : GameState.t) (r : DMResponse.t) :
  gameState h = Some g ->
  dmResponse h = Some r ->
  awaitingPlayerAction h = true ->
  DMResponse.game_over r = false /\ loading h = false /\ audioPlaying h = false.
Proof.
  intros Hg Hdr Hact. unfold awaitingPlayerAction, offered, actionsShown in Hact.
  rewrite Hg, Hdr in Hact.
  apply andb_true_iff in Hact as [Hact Hidle].
  apply andb_true_iff in Hact as [Hover _].
  apply negb_true_iff in Hover.
  apply negb_true_iff, orb_false_iff in Hidle as [Hld Hap]. auto.
Qed.

(** The click on a suggestion, store by store. *)
Lemma step_suggested_store (h : Home) (g : GameState.t) (shown : DMResponse.t)
      (idx : nat) (action : string) :
  gameState h = Some g ->
  dmResponse h = Some shown ->
  awaitingPlayerAction h = true ->
  nth_error (suggestedList shown) idx = Some action ->
  step (User (ClickSuggested idx)) h
  = Some (mkHome (Some g) (Some shown) true false None ""
                 (playerName h) (playerClass h) (mounted h)
                 (pending h ++ [AwaitDM g]),
          [Send (gameClient.getDMResponse_request g (Some action))]).
Proof.
  intros Hg Hdr Hact Hnth.
  destruct (awaitingPlayerAction_flags h g shown Hg Hdr Hact) as (Hover & Hld & Hap).
  unfold step, offered, actionsShown.
  rewrite Hg, Hdr, Hover, Hld, Hap, (suggestedList_bound _ _ _ Hnth).
  cbn [negb andb orb handle]. rewrite Hdr, Hnth.
  rewrite (rendered_handleAction h g action Hg), Hdr, Hap. reflexivity.
Qed.

(** X8. A full turn. From a store in which the player can act, the click
    on the [idx]-th suggestion, the DM response (with a narration), the
    voice response and the end of the narration all go through, one after
    the other. They send one DM request, with the game state on display and
    the suggestion clicked, then one voice request with the narration, and
    start the audio. The store they leave holds the updated state and the
    new response, no error, an empty input, nothing more in flight than
    before, and is again one in which the player can act unless the
    response ends the game. *)
Theorem full_turn_returns_to_the_player (h : Home) (g : GameState.t)
        (shown : DMResponse.t) (idx : nat) (action : string)
        (response : DMResponse.t) (voice : VoiceResponse.t) :
  gameState h = Some g ->
  dmResponse h = Some shown ->
  awaitingPlayerAction h = true ->
  nth_error (suggestedList shown) idx = Some action ->
  truthy (DMResponse.dm_narration response) = true ->
  exists h',
    run (fullTurn h idx response voice AudioEnded) h
    = Some (h',
            [Send (gameClient.getDMResponse_request g (Some action));
             Send (gameClient.getVoiceNarration_request
                     (DMResponse.dm_narration response));
             AudioPlay])
    /\ gameState h' = Some (updatedState g response)
    /\ dmResponse h' = Some response
    /\ loading h' = false
    /\ audioPlaying h' = false
    /\ error h' = None
    /\ customAction h' = ""
    /\ pending h' = pending h
    /\ awaitingPlayerAction h' = negb (DMResponse.game_over response).
Proof.
  intros Hg Hdr Hact Hnth Hnarr.
  pose proof (step_suggested_store h g shown idx action Hg Hdr Hact Hnth) as S1.
  destruct (mounted_some h) as [a Ha]. rewrite Ha in S1.
  set (h1 := mkHome (Some g) (Some shown) true false None "" (playerName h)
                    (playerClass h) (Some a) (pending h ++ [AwaitDM g])) in *.
  assert (S2 : step (DMSettled (List.length (pending h)) (Resolved response)) h1
               = Some (mkHome (Some (updatedState g response)) (Some response)
                              true false None "" (playerName h) (playerClass h)
                              (Some a) (pending h ++ [AwaitVoice]),
                       [Send (gameClient.getVoiceNarration_request
                                (DMResponse.dm_narration response))])).
  { rewrite (step_dm_resolved_store h1 _ g response) by apply nth_error_snoc.
    cbn. rewrite Hnarr, remove_nth_snoc. reflexivity. }
  set (h2 := mkHome (Some (updatedState g response)) (Some response)
                    true false None "" (playerName h) (playerClass h)
                    (Some a) (pending h ++ [AwaitVoice])) in *.
  assert (S3 : step (VoiceSettled (List.length (pending h)) (Resolved voice)) h2
               = Some (mkHome (Some (updatedState g response)) (Some response)
                              true true None "" (playerName h) (playerClass h)
                              (Some (mkAudio ("data:audio/mp3;base64,"
                                              ++ VoiceResponse.audio_base64 voice)
                                             true true))
                              (pending h),
                       [AudioPlay])).
  { rewrite (step_voice_resolved_store h2 _ voice (updatedState g response) a);
      [| apply nth_error_snoc | reflexivity | reflexivity].
    cbn. rewrite remove_nth_snoc. reflexivity. }
  set (h3 := mkHome (Some (updatedState g response)) (Some response)
                    true true None "" (playerName h) (playerClass h)
                    (Some (mkAudio ("data:audio/mp3;base64,"
                                    ++ VoiceResponse.audio_base64 voice)
                                   true true))
                    (pending h)) in *.
  pose proof (step_audio_ended_store h3 (updatedState g response) _
                eq_refl eq_refl eq_refl eq_refl) as S4.
  eexists. split.
  - unfold fullTurn. cbn [run]. rewrite S1, S2, S3, S4. reflexivity.
  - cbn. do 7 (split; [reflexivity |]).
    unfold awaitingPlayerAction, offered, actionsShown. cbn.
    now rewrite !andb_true_r.
Qed.

(** ** The other controls of the view *)

Lemma logical_or_eqb (a b : string) :
  logical_or a b = if String.eqb a "" then b else a.
Proof. destruct a; reflexivity. Qed.

(** X9. "Start Adventure" on the start form goes through for every seed.
    It puts a fresh game state on display (full health 20, turn 0, empty
    inventory, "Starting Point", the class selected, the name typed or
    "Adventurer" when the name is empty), clears the error, raises
    [loading] and sends exactly one DM request, with that state and no
    player action. No control that submits an action is offered until
    something clears [loading]. *)
Theorem start_adventure_builds_a_fresh_state (h : Home) (seed : string) :
  gameState h = None ->
  exists h',
    step (User (ClickStartAdventure seed)) h
    = Some (h', [Send (gameClient.getDMResponse_request (freshState h seed) None)])
    /\ gameState h' = Some (freshState h seed)
    /\ dmResponse h' = dmResponse h
    /\ loading h' = true
    /\ error h' = None
    /\ pending h' = (pending h ++ [AwaitDM (freshState h seed)])%list
    /\ (forall ev, is_action_submission ev = true -> offered h' ev = false).
Proof.
  intros Hg. unfold step, offered. rewrite Hg.
  destruct h as [gs dr ld ap er ca pn pc ar pd]. cbn in Hg. subst gs.
  unfold freshState. cbn [playerName playerClass].
  rewrite <- logical_or_eqb.
  destruct ar as [a |]; eexists; (split;
    [unfold rendered, commit; open_cmds; cbn; reflexivity |]).
  all: cbn.
  all: do 5 (split; [reflexivity |]).
  all: intros ev Hev; unfold offered; cbn.
  all: destruct ev; try discriminate; cbn; rewrite ?andb_false_r; try reflexivity.
  all: destruct (actionsShown _); destruct (truthy ca); reflexivity.
Qed.


(** X10. The custom action. In a store in which the player can act, with a
    non-empty text in the input, "Enter" and "Send" do the same: they send
    one DM request with the game state on display and the text as typed,
    empty the input, clear the error and raise [loading]. With an empty
    input "Send" is disabled and "Enter" goes through without sending or
    changing anything. *)
Theorem custom_action_is_sent_as_typed (h : Home) (g : GameState.t)
        (shown : DMResponse.t) :
  gameState h = Some g ->
  dmResponse h = Some shown ->
  awaitingPlayerAction h = true ->
  (customAction h <> "" ->
   exists h',
     step (User PressEnter) h
     = Some (h', [Send (gameClient.getDMResponse_request g (Some (customAction h)))])
     /\ step (User ClickSend) h = step (User PressEnter) h
     /\ customAction h' = ""
     /\ error h' = None
     /\ loading h' = true
     /\ gameState h' = Some g
     /\ dmResponse h' = Some shown
     /\ pending h' = (pending h ++ [AwaitDM g])%list)
  /\ (customAction h = "" ->
      step (User ClickSend) h = None
      /\ exists h',
          step (User PressEnter) h = Some (h', [])
          /\ gameState h' = Some g
          /\ dmResponse h' = Some shown
          /\ loading h' = false
          /\ error h' = error h
          /\ customAction h' = ""
          /\ pending h' = pending h).
Proof.
  intros Hg Hdr Hact.
  destruct (awaitingPlayerAction_flags h g shown Hg Hdr Hact) as (Hover & Hld & Hap).
  split.
  - intros Htext. pose proof (truthy_nonempty _ Htext) as Htr.
    assert (SE : step (User PressEnter) h = Some (rendered (handleAction (customAction h) h))).
    { unfold step, offered, actionsShown. rewrite Hg, Hdr, Hover, Hld, Hap.
      cbn [negb andb orb handle]. rewrite Htr, Hld, Hap. reflexivity. }
    assert (SS : step (User ClickSend) h = Some (rendered (handleAction (customAction h) h))).
    { unfold step, offered, actionsShown. rewrite Hg, Hdr, Hover, Hld, Hap, Htr.
      cbn [negb andb orb handle]. rewrite Htr. reflexivity. }
    rewrite SS, SE, (rendered_handleAction h g _ Hg), Hdr.
    eexists. split; [reflexivity |]. cbn. auto 10.
  - intros Hempty. split.
    + unfold step, offered, actionsShown. rewrite Hg, Hdr, Hover, Hld, Hap, Hempty.
      reflexivity.
    + exists (commit h). split.
      * unfold step, offered, actionsShown. rewrite Hg, Hdr, Hover, Hld, Hap.
        cbn [negb andb orb handle]. rewrite Hempty. reflexivity.
      * rewrite commit_gameState, commit_dmResponse, commit_loading,
          commit_error, commit_customAction, commit_pending. auto 10.
Qed.

(** X11. The voice response. When the voice request of a suspended
    [playNarration] is answered on the game screen, the audio element gets
    the base64 payload as an mp3 data URL (whatever [content_type] the
    response names) and starts playing, [audioPlaying] goes up, [loading]
    stays as it is, "Skip" is offered and no control that submits an action
    is. When it is answered on the start form, where there is no audio
    element, the response is dropped: nothing is played and no hook
    changes. *)
Theorem voice_response_plays_or_is_dropped (h : Home) (i : nat)
        (v : VoiceResponse.t) :
  nth_error (pending h) i = Some AwaitVoice ->
  (forall g a,
      gameState h = Some g -> audioRef_current h = Some a ->
      exists h',
        step (VoiceSettled i (Resolved v)) h = Some (h', [AudioPlay])
        /\ audioRef_current h'
           = Some (mkAudio ("data:audio/mp3;base64," ++ VoiceResponse.audio_base64 v)
                           true true)
        /\ audioPlaying h' = true
        /\ loading h' = loading h
        /\ gameState h' = Some g
        /\ dmResponse h' = dmResponse h
        /\ offered h' ClickSkip = true
        /\ (forall ev, is_action_submission ev = true -> offered h' ev = false))
  /\ (gameState h = None -> audioRef_current h = None ->
      exists h',
        step (VoiceSettled i (Resolved v)) h = Some (h', [])
        /\ gameState h' = None
        /\ dmResponse h' = dmResponse h
        /\ loading h' = loading h
        /\ audioPlaying h' = audioPlaying h
        /\ error h' = error h
        /\ audioRef_current h' = None
        /\ pending h' = remove_nth i (pending h)).
Proof.
  intros Hp. split.
  - intros g a Hg Ha.
    eexists. split; [exact (step_voice_resolved_store h i v g a Hp Hg Ha) |].
    cbn. do 5 (split; [reflexivity |]). split; [reflexivity |].
    intros ev Hev. unfold offered. cbn.
    destruct ev; try discriminate; cbn;
      rewrite ?orb_true_r, ?andb_false_r; reflexivity.
  - intros Hg Ha. unfold step. rewrite Hp.
    destruct h as [gs dr ld ap er ca pn pc ar pd]. cbn in Hg, Ha. subst gs ar.
    eexists. split.
    + unfold rendered, commit. open_cmds. cbn. reflexivity.
    + cbn. auto 10.
Qed.

(** X12. "New Game" is offered on every game screen and cancels nothing.
    It clears the game state, the response, the input, the error and the
    form, and leaves [loading], [audioPlaying] and the requests in flight
    as they are. When the response of a DM request sent before the reset
    arrives afterwards, it is committed like any other: the game screen
    comes back with the update of the state that request was sent with. *)
Theorem reset_does_not_cancel (h : Home) (i : nat) (g state : GameState.t)
        (response : DMResponse.t) :
  gameState h = Some g ->
  nth_error (pending h) i = Some (AwaitDM state) ->
  exists h1 h2 effs,
    step (User ClickNewGame) h = Some (h1, [])
    /\ NotStarted h1
    /\ customAction h1 = "" /\ error h1 = None
    /\ playerName h1 = "" /\ playerClass h1 = "Rogue"
    /\ loading h1 = loading h
    /\ audioPlaying h1 = audioPlaying h
    /\ pending h1 = pending h
    /\ step (DMSettled i (Resolved response)) h1 = Some (h2, effs)
    /\ gameState h2 = Some (updatedState state response)
    /\ dmResponse h2 = Some response.
Proof.
  intros Hg Hp.
  assert (S1 : step (User ClickNewGame) h = Some (rendered (resetGame h))).
  { unfold step, offered. rewrite Hg. reflexivity. }
  set (h1 := fst (rendered (resetGame h))).
  assert (Hpend : pending h1 = pending h).
  { subst h1. unfold rendered. cbn [fst]. rewrite commit_pending. reflexivity. }
  assert (Hp1 : nth_error (pending h1) i = Some (AwaitDM state)) by now rewrite Hpend.
  destruct (step_dm_resolved h1 i state response Hp1) as (h2 & S2 & Hg2 & Hd2 & _).
  exists h1, h2. eexists.
  split; [exact S1 |].
  subst h1. unfold rendered, NotStarted in *. cbn [fst] in *.
  rewrite commit_gameState, commit_dmResponse, commit_customAction, commit_error,
    commit_playerName, commit_playerClass, commit_loading, commit_audioPlaying.
  split; [split; reflexivity |].
  do 6 (split; [reflexivity |]).
  split; [exact Hpend |]. split; [exact S2 |]. split; assumption.
Qed.

(** X13. What is sent, and by what. Every step sends at most one request.
    A DM request is only sent by "Start Adventure" and by the controls that
    submit an action; a voice request is only sent when a DM response with
    a non-empty narration arrives, and it carries that narration. A request
    that fails is never sent again by the component. *)
Theorem requests_are_sent_once (e : Event) (h h' : Home) (effs : list Effect) :
  step e h = Some (h', effs) ->
  (List.length (filter is_request effs) <= 1)%nat
  /\ (existsb is_dm_request effs = true ->
      exists ev, e = User ev
                 /\ (is_action_submission ev = true
                     \/ exists seed, ev = ClickStartAdventure seed))
  /\ (existsb is_voice_request effs = true ->
      exists i response,
        e = DMSettled i (Resolved response)
        /\ truthy (DMResponse.dm_narration response) = true
        /\ effs = [Send (gameClient.getVoiceNarration_request
                           (DMResponse.dm_narration response))])
  /\ (forall i err, e = DMSettled i (Rejected err) -> effs = [])
  /\ (forall i err, e = VoiceSettled i (Rejected err) -> effs = []).
Proof.
  intros Hstep.
  destruct e as [ev | i posted | i posted |]; unfold step in Hstep.
  - destruct (offered h ev); [| discriminate].
    inversion Hstep; subst; clear Hstep. unfold rendered. cbn [snd].
    destruct h as [gs dr ld ap er ca pn pc [a |] pd];
    destruct ev; open_cmds; cbn;
      repeat match goal with
             | |- context [match ?x with _ => _ end] => destruct x
             end; cbn;
      (split; [lia |]); (split; [| split; [| split]]);
      try discriminate; try (intros; discriminate); eauto 6.
  - destruct (nth_error (pending h) i) as [[state |] |] eqn:Hp; try discriminate.
    destruct posted as [response | err].
    + pose proof (step_dm_resolved_store h i state response Hp) as Hs.
      unfold step in Hs. rewrite Hp in Hs. rewrite Hs in Hstep.
      inversion Hstep; subst; clear Hstep Hs.
      destruct (truthy (DMResponse.dm_narration response)) eqn:Hn; cbn;
        (split; [lia |]); (split; [| split; [| split]]);
        try discriminate; try (intros; discriminate); eauto 6.
    + destruct (step_dm_rejected h i state err Hp) as (h1 & Hs & _).
      unfold step in Hs. rewrite Hp in Hs. rewrite Hs in Hstep.
      inversion Hstep; subst; clear Hstep. cbn.
      (split; [lia |]); (split; [| split; [| split]]);
        try discriminate; try (intros; discriminate); eauto 6.
  - destruct (nth_error (pending h) i) as [[state |] |] eqn:Hp; try discriminate.
    destruct posted as [v | err].
    + inversion Hstep; subst; clear Hstep. unfold rendered. cbn [snd].
      destruct h as [gs dr ld ap er ca pn pc [a |] pd]; open_cmds; cbn;
        (split; [lia |]); (split; [| split; [| split]]);
        try discriminate; try (intros; discriminate); eauto 6.
    + destruct (step_voice_rejected h i err Hp) as (h1 & Hs & _).
      unfold step in Hs. rewrite Hp in Hs. rewrite Hs in Hstep.
      inversion Hstep; subst; clear Hstep. cbn.
      (split; [lia |]); (split; [| split; [| split]]);
        try discriminate; try (intros; discriminate); eauto 6.
  - destruct (audioRef_current h) as [a |]; [| discriminate].
    destruct (onended a && playing a); [| discriminate].
    inversion Hstep; subst; clear Hstep. unfold rendered. cbn [snd].
    open_cmds. cbn.
    (split; [lia |]); (split; [| split; [| split]]);
      try discriminate; try (intros; discriminate); eauto 6.
Qed.

(** X14. After a failed DM call. When the DM request fails while no
    narration is flagged as playing: if a response was on display, the
    action controls are enabled again (unless that response ended the
    game), so the player can submit the action once more; if none was on
    display (the first request of the adventure failed), the view offers
    "Dismiss" and "New Game" only, and the adventure can only be started
    again. *)
Theorem retry_after_a_failed_dm_call (h : Home) (i : nat) (g state : GameState.t)
        (e : Thrown) :
  nth_error (pending h) i = Some (AwaitDM state) ->
  gameState h = Some g ->
  audioPlaying h = false ->
  exists h',
    step (DMSettled i (Rejected e)) h = Some (h', [])
    /\ (forall shown, dmResponse h = Some shown ->
                      awaitingPlayerAction h' = negb (DMResponse.game_over shown))
    /\ (dmResponse h = None ->
        forall ev, offered h' ev = true -> ev = ClickDismiss \/ ev = ClickNewGame).
Proof.
  intros Hp Hg Hap.
  destruct (step_dm_rejected h i state e Hp)
    as (h' & Hstep & Hgs & Hdr & Hap' & Hld & _).
  rewrite Hg in Hgs. rewrite Hap in Hap'.
  exists h'. split; [exact Hstep |]. split.
  - intros shown Hshown. rewrite Hshown in Hdr.
    unfold awaitingPlayerAction, offered, actionsShown.
    rewrite Hgs, Hdr, Hld, Hap'. cbn. now rewrite !andb_true_r.
  - intros Hnone ev Hoff. rewrite Hnone in Hdr.
    unfold offered, actionsShown, gameOverShown in Hoff.
    rewrite Hgs, Hdr, Hap' in Hoff.
    destruct ev; try discriminate; auto.
Qed.

(** ** Witnesses *)

Lemma playerToAct_reachable : reachable playerToAct.
Proof.
  apply (reachable_step
           (VoiceSettled 0 (Rejected (AxiosError "timeout of 60000ms exceeded")))
           (afterFirstResponse goblinFight) playerToAct []); [| by_eval].
  apply (reachable_step (DMSettled 0 (Resolved goblinFight)) firstRequestInFlight
           (afterFirstResponse goblinFight)
           [Send (gameClient.getVoiceNarration_request
                    "The goblin lunges at you with surprising speed...")]);
    [| by_eval].
  apply (reachable_step (User (ClickStartAdventure "k3x9q2m7a")) init
           firstRequestInFlight
           [Send (gameClient.getDMResponse_request firstState None)]);
    [exact reachable_init | by_eval].
Defined.

Lemma reachable_stores_are_sound_witness :
  sound_state (updatedState firstState goblinFight)
  /\ 1 <= GameState.turn_count (updatedState firstState goblinFight).
Proof.
  destruct (reachable_stores_are_sound playerToAct playerToAct_reachable)
    as (Hstate & _ & Hturn & _).
  split.
  - apply Hstate. by_eval.
  - apply (Hturn _ goblinFight); by_eval.
Defined.

Lemma one_request_at_a_time_witness :
  (List.length (pending (afterFirstResponse goblinFight)) <= 1)%nat
  /\ loading (afterFirstResponse goblinFight) = true
  /\ audioPlaying (afterFirstResponse goblinFight) = false.
Proof.
  destruct (one_request_at_a_time
              [User (ClickStartAdventure "k3x9q2m7a");
               DMSettled 0 (Resolved goblinFight)]
              (afterFirstResponse goblinFight)
              [Send (gameClient.getDMResponse_request firstState None);
               Send (gameClient.getVoiceNarration_request
                       "The goblin lunges at you with surprising speed...")])
    as (Hlen & Hbusy); [by_eval | by_eval |].
  split; [exact Hlen |].
  destruct Hbusy as (Hld & Hap & _); [vm_compute; discriminate |].
  split; assumption.
Defined.

Lemma skip_is_the_end_of_the_narration_witness :
  exists h',
    step (User ClickSkip) narrationPlaying = Some (h', [AudioPause])
    /\ step AudioEnded narrationPlaying = Some (h', [])
    /\ loading h' = false
    /\ awaitingPlayerAction h' = true.
Proof.
  destruct (skip_is_the_end_of_the_narration narrationPlaying
              (updatedState firstState goblinFight)
              (mkAudio "data:audio/mp3;base64,//NExAAqgI" true true))
    as (h' & Hskip & Hld & _ & _ & _ & _ & Hact & Hend);
    [by_eval | by_eval | by_eval |].
  exists h'. split; [exact Hskip |]. split; [apply Hend; reflexivity |].
  split; [exact Hld |]. rewrite Hact. by_eval.
Defined.

Lemma full_turn_witness :
  exists h',
    run (fullTurn playerToAct 1 healFive someVoice AudioEnded) playerToAct
    = Some (h',
            [Send (gameClient.getDMResponse_request
                     (updatedState firstState goblinFight)
                     (Some "Use a special ability"));
             Send (gameClient.getVoiceNarration_request "You drink the potion.");
             AudioPlay])
    /\ gameState h' = Some (updatedState (updatedState firstState goblinFight) healFive)
    /\ awaitingPlayerAction h' = true.
Proof.
  destruct (full_turn_returns_to_the_player playerToAct
              (updatedState firstState goblinFight) goblinFight 1
              "Use a special ability" healFive someVoice)
    as (h' & Hrun & Hgs & _ & _ & _ & _ & _ & _ & Hact);
    [by_eval | by_eval | by_eval | by_eval | by_eval |].
  exists h'. split; [exact Hrun |]. split; [exact Hgs | exact Hact].
Defined.

Lemma start_adventure_witness :
  exists h',
    step (User (ClickStartAdventure "k3x9q2m7a")) init
    = Some (h', [Send (gameClient.getDMResponse_request firstState None)])
    /\ gameState h' = Some firstState
    /\ loading h' = true.
Proof.
  destruct (start_adventure_builds_a_fresh_state init "k3x9q2m7a")
    as (h' & Hstep & Hgs & _ & Hld & _); [by_eval |].
  exists h'. split; [exact Hstep |]. split; [exact Hgs | exact Hld].
Defined.

Lemma custom_action_witness :
  (exists h',
      step (User ClickSend) doorTyped
      = Some (h', [Send (gameClient.getDMResponse_request
                           (updatedState firstState goblinFight)
                           (Some "Open the door"))])
      /\ customAction h' = "")
  /\ step (User ClickSend) playerToAct = None.
Proof.
  split.
  - destruct (custom_action_is_sent_as_typed doorTyped
                (updatedState firstState goblinFight) goblinFight)
      as (Hsend & _); [by_eval | by_eval | by_eval |].
    destruct Hsend as (h' & Henter & Hsame & Hca & _); [vm_compute; discriminate |].
    exists h'. split; [rewrite Hsame; exact Henter | exact Hca].
  - destruct (custom_action_is_sent_as_typed playerToAct
                (updatedState firstState goblinFight) goblinFight)
      as (_ & Hempty); [by_eval | by_eval | by_eval |].
    destruct Hempty as (Hsend & _); [by_eval | exact Hsend].
Defined.

Lemma voice_response_witness :
  exists h',
    step (VoiceSettled 0 (Resolved someVoice)) (afterFirstResponse goblinFight)
    = Some (h', [AudioPlay])
    /\ audioPlaying h' = true
    /\ offered h' ClickSkip = true.
Proof.
  destruct (voice_response_plays_or_is_dropped (afterFirstResponse goblinFight) 0
              someVoice)
    as (Hplay & _); [by_eval |].
  destruct (Hplay (updatedState firstState goblinFight) (mkAudio "" false false))
    as (h' & Hstep & _ & Hap & _ & _ & _ & Hskip & _); [by_eval | by_eval |].
  exists h'. split; [exact Hstep |]. split; [exact Hap | exact Hskip].
Defined.

Lemma reset_does_not_cancel_witness :
  exists h1 h2 effs,
    step (User ClickNewGame) firstRequestInFlight = Some (h1, [])
    /\ NotStarted h1
    /\ step (DMSettled 0 (Resolved goblinFight)) h1 = Some (h2, effs)
    /\ gameState h2 = Some (updatedState firstState goblinFight).
Proof.
  destruct (reset_does_not_cancel firstRequestInFlight 0 firstState firstState
              goblinFight)
    as (h1 & h2 & effs & Hreset & Hns & _ & _ & _ & _ & _ & _ & _ & Hstep & Hgs & _);
    [by_eval | by_eval |].
  exists h1, h2, effs. auto.
Defined.

Lemma requests_are_sent_once_witness :
  (List.length
     (filter is_request
             [Send (gameClient.getDMResponse_request firstState None)]) <= 1)%nat.
Proof.
  destruct (requests_are_sent_once (User (ClickStartAdventure "k3x9q2m7a")) init
              firstRequestInFlight
              [Send (gameClient.getDMResponse_request firstState None)])
    as (Hone & _); [by_eval |].
  exact Hone.
Defined.

Lemma retry_witness :
  exists h',
    step (DMSettled 0 (Rejected (AxiosError "timeout of 60000ms exceeded")))
         firstRequestInFlight = Some (h', [])
    /\ (forall ev, offered h' ev = true -> ev = ClickDismiss \/ ev = ClickNewGame).
Proof.
  destruct (retry_after_a_failed_dm_call firstRequestInFlight 0 firstState
              firstState (AxiosError "timeout of 60000ms exceeded"))
    as (h' & Hstep & _ & Hfirst); [by_eval | by_eval | by_eval |].
  exists h'. split; [exact Hstep |].
  apply Hfirst. by_eval.
Defined.

(** ** The turn count of a session *)

(** What a control other than a reset does to the game state and to the
    requests in flight. *)
Lemma handle_game_and_pending (ev : UserEvent) (h : Home) :
  is_reset ev = false ->
  offered h ev = true ->
  (gameState (fst (handle ev h)) = gameState h
   /\ (pending (fst (handle ev h)) = pending h
       \/ exists g, gameState h = Some g
                    /\ pending (fst (handle ev h)) = (pending h ++ [AwaitDM g])%list))
  \/ (gameState h = None
      /\ exists fresh,
          GameState.turn_count fresh = 0
          /\ gameState (fst (handle ev h)) = Some fresh
          /\ pending (fst (handle ev h)) = (pending h ++ [AwaitDM fresh])%list).
Proof.
  intros Hnr Hoff.
  destruct h as [gs dr ld ap er ca pn pc [a |] pd];
    unfold offered in Hoff; cbn in Hoff;
    destruct gs as [g |]; destruct ev; try discriminate; open_cmds; cbn;
    repeat match goal with
           | |- context [match ?x with _ => _ end] => destruct x
           end; cbn; eauto 8;
    try (right; split; [reflexivity |]; eexists; split; [| split; reflexivity];
         reflexivity).
Qed.

Lemma step_counts_turns (e : Event) (n : nat) (h h' : Home) (effs : list Effect) :
  no_reset e = true ->
  one_at_a_time h ->
  counts_turns n h ->
  step e h = Some (h', effs) ->
  counts_turns (n + if is_dm_response e then 1 else 0) h'.
Proof.
  intros Hnr Hone (Hzero & Hturn & Hsame) Hstep.
  destruct Hone as (Hform & _ & Hlen & _ & _).
  destruct e as [ev | i posted | i posted |]; unfold step in Hstep; cbn [is_dm_response].
  - destruct (offered h ev) eqn:Hoff; [| discriminate].
    inversion Hstep; subst; clear Hstep. unfold rendered, counts_turns. cbn [fst].
    rewrite commit_gameState, commit_pending, Nat.add_0_r.
    cbn in Hnr. apply negb_true_iff in Hnr.
    destruct (handle_game_and_pending ev h Hnr Hoff)
      as [(Hg & Hp) | (Hnone & fresh & Hf0 & Hg & Hp)].
    + rewrite Hg. split; [exact Hzero |]. split; [exact Hturn |].
      destruct Hp as [-> | (g & Hgs & ->)]; [exact Hsame |].
      intros state Hin. apply in_app_or in Hin as [Hin | [Heq | []]]; [auto |].
      inversion Heq; subst. exact Hgs.
    + rewrite Hg, Hp. destruct (Hform Hnone) as (Hnil & _). rewrite Hnil.
      rewrite (Hzero Hnone).
      split; [discriminate |]. split.
      * intros g Heq. inversion Heq; subst. exact Hf0.
      * intros state [Heq | []]. inversion Heq; subst. reflexivity.
  - destruct (nth_error (pending h) i) as [[state |] |] eqn:Hp; try discriminate.
    destruct (pending_single _ _ _ Hlen Hp) as [Hpd ->].
    pose proof (Hsame state (nth_error_In _ _ Hp)) as Hshown.
    destruct posted as [response | err].
    + destruct (step_dm_resolved h 0 state response Hp)
        as (h1 & Hs & Hg1 & _ & _ & _ & _ & _ & Hp1).
      unfold step in Hs. rewrite Hp in Hs. rewrite Hs in Hstep.
      inversion Hstep; subst; clear Hstep.
      unfold counts_turns. rewrite Hg1, Hp1, Hpd. cbn [remove_nth app].
      split; [discriminate |]. split.
      * intros g Heq. inversion Heq; subst. cbn.
        rewrite (Hturn state Hshown). lia.
      * intros st Hin.
        destruct (truthy (DMResponse.dm_narration response));
          [destruct Hin as [Heq | []]; discriminate | destruct Hin].
    + destruct (step_dm_rejected h 0 state err Hp)
        as (h1 & Hs & Hg1 & _ & _ & _ & _ & Hp1).
      unfold step in Hs. rewrite Hp in Hs. rewrite Hs in Hstep.
      inversion Hstep; subst; clear Hstep.
      unfold counts_turns. rewrite Hg1, Hp1, Hpd, Nat.add_0_r. cbn [remove_nth].
      split; [exact Hzero |]. split; [exact Hturn |]. intros st [].
  - destruct (nth_error (pending h) i) as [[state |] |] eqn:Hp; try discriminate.
    destruct (pending_single _ _ _ Hlen Hp) as [Hpd ->].
    inversion Hstep; subst; clear Hstep. unfold rendered, counts_turns. cbn [fst].
    rewrite commit_gameState, commit_pending, Nat.add_0_r.
    assert (Hfields :
              gameState (fst ((setPending (remove_nth 0 (pending h)) ;;
                               playNarration_resume posted) h)) = gameState h
              /\ pending (fst ((setPending (remove_nth 0 (pending h)) ;;
                                playNarration_resume posted) h)) = []).
    { rewrite Hpd. destruct h as [gs dr ld ap er ca pn pc [a |] pd].
      all: destruct posted as [v | [m | m |]]; open_cmds; cbn; auto. }
    cbn [remove_nth] in Hfields |- *. destruct Hfields as [-> ->].
    split; [exact Hzero |]. split; [exact Hturn |]. intros st [].
  - destruct (audioRef_current h) as [a |] eqn:Ha; [| discriminate].
    destruct (onended a && playing a); [| discriminate].
    inversion Hstep; subst; clear Hstep. unfold rendered, counts_turns. cbn [fst].
    rewrite commit_gameState, commit_pending, Nat.add_0_r.
    destruct h as [gs dr ld ap er ca pn pc ar pd]. open_cmds. cbn in *.
    auto.
Qed.

Lemma run_counts_turns (es : list Event) :
  forall (n : nat) (h h' : Home) (effs : list Effect),
    forallb no_reset es = true ->
    one_at_a_time h ->
    counts_turns n h ->
    run es h = Some (h', effs) ->
    counts_turns (n + List.length (filter is_dm_response es)) h'.
Proof.
  induction es as [| e es IH]; intros n h h' effs Hnr Hone Hcount Hrun.
  - cbn in Hrun. inversion Hrun; subst. cbn. now rewrite Nat.add_0_r.
  - cbn in Hnr. apply andb_true_iff in Hnr as [He Hrest].
    cbn [run] in Hrun.
    destruct (step e h) as [[h1 effs1] |] eqn:Hstep; [| discriminate].
    destruct (run es h1) as [[h2 effs2] |] eqn:Hrun1; [| discriminate].
    inversion Hrun; subst; clear Hrun.
    pose proof (step_one_at_a_time e h h1 effs1 He Hone Hstep) as Hone1.
    pose proof (step_counts_turns e n h h1 effs1 He Hone Hcount Hstep) as Hcount1.
    pose proof (IH _ h1 h' effs2 Hrest Hone1 Hcount1 Hrun1) as Hfinal.
    cbn [filter]. destruct (is_dm_response e); cbn [List.length].
    + replace (n + S (List.length (filter is_dm_response es)))%nat
        with (n + 1 + List.length (filter is_dm_response es))%nat by lia.
      exact Hfinal.
    + rewrite Nat.add_0_r in Hfinal. exact Hfinal.
Qed.

(** X15. In a session without reset the turn count on display is the number
    of DM responses received so far, whatever else happened in between
    (failed requests, voice responses, skipped or finished narrations,
    typing); and a DM request in flight always travels with the game state
    on display. *)
Theorem turn_count_counts_the_responses (es : list Event) (h : Home)
        (effs : list Effect) (g : GameState.t) :
  forallb no_reset es = true ->
  run es init = Some (h, effs) ->
  gameState h = Some g ->
  GameState.turn_count g = Z.of_nat (List.length (filter is_dm_response es))
  /\ (forall state, In (AwaitDM state) (pending h) -> state = g).
Proof.
  intros Hnr Hrun Hg.
  assert (Hinit : counts_turns 0 init).
  { unfold counts_turns. cbn. repeat split; auto; try discriminate. contradiction. }
  destruct (run_counts_turns es 0 init h effs Hnr init_one_at_a_time Hinit Hrun)
    as (_ & Hturn & Hsame).
  split; [exact (Hturn g Hg) |].
  intros state Hin. apply Hsame in Hin. congruence.
Qed.

Lemma turn_count_witness :
  GameState.turn_count (updatedState firstState goblinFight) = 1.
Proof.
  destruct (turn_count_counts_the_responses
              [User (ClickStartAdventure "k3x9q2m7a");
               DMSettled 0 (Resolved goblinFight);
               VoiceSettled 0 (Rejected (AxiosError "timeout of 60000ms exceeded"))]
              playerToAct
              [Send (gameClient.getDMResponse_request firstState None);
               Send (gameClient.getVoiceNarration_request
                       "The goblin lunges at you with surprising speed...")]
              (updatedState firstState goblinFight))
    as (Hturn & _); [by_eval | by_eval | by_eval |].
  exact Hturn.
Defined.
